(** * Monte Carlo Tree Search bots: [mcts_vanilla.py] and [mcts_modified.py]

    A shallow embedding of the two search modules and the proofs of the
    properties their specification states.

    Conventions of the embedding.
    - Python [int] is [Z].  Python [float] is idealised as a real number
      ([R]): [wins / visits], [math.log], [math.sqrt] and [>=] are the exact
      real operations, so rounding is not modelled.  The search model uses
      [ucb] and [win_rate], which also leave out the [OverflowError] of an
      int that does not fit a float; [Checked.ucb] and [Checked.win_rate]
      are the same lines with that check, and agree with them on all
      statistics below [float_limit].
    - Tree nodes live in an arena ([list MCTSNode]); a reference to a node is
      its index.  [parent] and the values of [child_nodes] are such indices.
    - A Python dict whose iteration order is observed ([child_nodes]) is an
      association list in insertion order; the reply table
      [last_good_replies], which is only looked up and written, is a [gmap].
    - [random.choice] reads an oracle [rnd : nat -> nat] at a draw counter
      that is threaded through the code.
    - Loops and recursion that Python does not bound take a [fuel] argument;
      running out of it is the outcome [Stuck OutOfFuel], never a value. *)

From Stdlib Require Import ZArith Reals Lra Lia.
From stdpp Require Import base option list gmap.

Open Scope Z_scope.

(** ** Outcomes of running Python code *)

(** The exceptions the two modules can raise.  Only [AssertionError] comes
    from a statement of the source that raises on purpose (the [assert] of
    [is_win]); the others are raised by the interpreter on a failed
    primitive operation. *)
Inductive exn : Type :=
  | ZeroDivisionError   (* [x / 0] *)
  | ValueError          (* [math.log] or [math.sqrt] outside its domain *)
  | AttributeError      (* attribute access on [None] *)
  | IndexError          (* [random.choice] of an empty sequence *)
  | KeyError            (* missing dict key *)
  | TypeError           (* [None] handed to the game adapter *)
  | AssertionError      (* the [assert] of [is_win] *)
  | OverflowError.      (* an int, or a quotient of ints, too large for a float *)

(** Reasons why the model, not the program, stops. *)
Inductive stuck : Type :=
  | OutOfFuel           (* the Python code would still be running *)
  | BadAddress.         (* an index outside the arena; no Python counterpart *)

Inductive result (A : Type) : Type :=
  | Ok (a : A)
  | Raise (e : exn)
  | Stuck (w : stuck).
Arguments Ok {A} a.
Arguments Raise {A} e.
Arguments Stuck {A} w.

#[global] Instance result_ret : MRet result := fun A a => Ok a.
#[global] Instance result_bind : MBind result := fun A B f m =>
  match m with
  | Ok a => f a
  | Raise e => Raise e
  | Stuck w => Stuck w
  end.

(** An exception is explicit when a [raise] or [assert] statement of the
    source produces it. *)
Definition explicitly_raised (e : exn) : bool :=
  match e with
  | AssertionError => true
  | _ => false
  end.

(** Monadic left fold: a Python [for] loop whose body may raise. *)
Fixpoint foldM {A B} (f : A -> B -> result A) (a : A) (l : list B) : result A :=
  match l with
  | [] => Ok a
  | x :: l' => a' ← f a x; foldM f a' l'
  end.

(** ** The reply table of the enhanced rollout *)

Section ReplyTable.
Context {Action : Type} `{Countable Action}.

(** Lines 101-108 of [mcts_modified.py], on the history seen as a stack
    (most recent entry first): [action_used.pop()] takes the head. *)
Fixpoint unwind (winning_bot : Z) (stack : list (Action * Z))
    (replies : gmap Action Action) : gmap Action Action :=
  match stack with
  | [] => replies
  | curr_action :: rest =>
      if bool_decide (curr_action.2 ≠ winning_bot) then
        unwind winning_bot rest replies
      else
        match rest with
        | [] => replies
        | preceding_action :: rest' =>
            unwind winning_bot rest'
              (<[preceding_action.1 := curr_action.1]> replies)
        end
  end.

(** The table update on the history in the order it was appended. *)
Definition update_replies (winning_bot : Z) (action_used : list (Action * Z))
    (replies : gmap Action Action) : gmap Action Action :=
  unwind winning_bot (rev action_used) replies.

End ReplyTable.

(** ** The game adapter *)

(** Modelled from the spec: [p2_t3.Board] is imported by both modules and is
    not part of the sources; this is the interface of section 6 of the
    specification.  [next_state] answers [None] for Python's [None], and
    [points_values] answers [None] where the game has no outcome yet. *)
Record Board (Action State : Type) : Type := {
  current_player : State -> Z;
  legal_actions : State -> list Action;
  next_state : State -> Action -> option State;
  is_ended : State -> bool;
  points_values : State -> option (gmap Z Z)
}.
Arguments current_player {Action State} b s.
Arguments legal_actions {Action State} b s.
Arguments next_state {Action State} b s a.
Arguments is_ended {Action State} b s.
Arguments points_values {Action State} b s.

(** ** Tree nodes *)

(** Modelled from the spec: [mcts_node.MCTSNode] is imported by both modules
    and is not part of the sources; these are the fields of section 3 of the
    specification, which the sources read and write. *)
Record MCTSNode (Action : Type) : Type := mkNode {
  parent : option nat;
  parent_action : option Action;
  child_nodes : list (Action * nat);
  untried_actions : list Action;
  wins : Z;
  visits : Z
}.
Arguments mkNode {Action} _ _ _ _ _ _.
Arguments parent {Action} m.
Arguments parent_action {Action} m.
Arguments child_nodes {Action} m.
Arguments untried_actions {Action} m.
Arguments wins {Action} m.
Arguments visits {Action} m.

(** [MCTSNode(parent, parent_action, action_list)]: no children, zero
    statistics. *)
Definition new_node {Action} (p : option nat) (a : option Action)
    (action_list : list Action) : MCTSNode Action :=
  mkNode p a [] action_list 0 0.

(** [node.wins += 1 if won; node.visits += 1] *)
Definition credit {Action} (won : bool) (n : MCTSNode Action) : MCTSNode Action :=
  mkNode (parent n) (parent_action n) (child_nodes n) (untried_actions n)
         (if won then wins n + 1 else wins n) (visits n + 1).

Definition deref {Action} (h : list (MCTSNode Action)) (a : nat)
    : result (MCTSNode Action) :=
  match h !! a with
  | Some n => Ok n
  | None => Stuck BadAddress
  end.

(** A state variable of the source holds a game state or [None]; the adapter
    is only defined on game states. *)
Definition the_state {State} (state : option State) : result State :=
  match state with
  | Some s => Ok s
  | None => Raise TypeError
  end.

(** [random.choice(l)] at draw counter [k] *)
Definition choice {A} (rnd : nat -> nat) (k : nat) (l : list A) : result (A * nat) :=
  match l with
  | [] => Raise IndexError
  | _ :: _ =>
      match l !! (rnd k mod length l)%nat with
      | Some x => Ok (x, S k)
      | None => Raise IndexError
      end
  end.

Definition explore_faction : R := 2%R.

(** Ints from [float_limit] on do not convert to a float: they round to
    2^1024, beyond the largest binary64 number 2^1024 - 2^971. *)
Definition float_limit : Z := 2 ^ 1024 - 2 ^ 970.

(** [a / b] on two ints: [ZeroDivisionError] for a zero divisor,
    [OverflowError] when the quotient is too large for a float. *)
Definition true_div (a b : Z) : result R :=
  if bool_decide (b = 0) then Raise ZeroDivisionError else
  if bool_decide (float_limit * Z.abs b <= Z.abs a) then Raise OverflowError else
  Ok (IZR a / IZR b)%R.

(** [x / b] on a float and an int: the int is converted to a float first. *)
Definition div_by_int (x : R) (b : Z) : result R :=
  if bool_decide (float_limit <= Z.abs b) then Raise OverflowError else
  if bool_decide (b = 0) then Raise ZeroDivisionError else
  Ok (x / IZR b)%R.

Section Model.
Context {Action State : Type} `{Countable Action}.
Variable board : Board Action State.
Variable rnd : nat -> nat.

#[local] Abbreviation heap := (list (MCTSNode Action)).

(** [l.remove(x)]: drops the first occurrence. *)
Fixpoint list_remove (x : Action) (l : list Action) : list Action :=
  match l with
  | [] => []
  | y :: l' => if decide (y = x) then l' else y :: list_remove x l'
  end.

(** [d.update({k: v})]: an existing key keeps its place. *)
Fixpoint dict_update (k : Action) (v : nat) (d : list (Action * nat))
    : list (Action * nat) :=
  match d with
  | [] => [(k, v)]
  | kv :: d' =>
      if decide (kv.1 = k) then (k, v) :: d' else kv :: dict_update k v d'
  end.

(** [ucb], lines 103-118 of [mcts_vanilla.py] (130-145 of
    [mcts_modified.py]).  The guards are the interpreter's: division by a
    zero [visits], [parent] being [None], [math.log] of a number that is not
    positive, [math.sqrt] of a negative number.  The conversion of [visits]
    to a float is taken to succeed, as it does below [float_limit];
    [Checked.ucb] has the check. *)
Definition ucb (h : heap) (c_node : nat) (is_opponent : bool) : result R :=
  n ← deref h c_node;
  if bool_decide (visits n = 0) then Raise ZeroDivisionError else
  let ucb_val := (IZR (wins n) / IZR (visits n))%R in
  let ucb_val := if is_opponent then (1 - ucb_val)%R else ucb_val in
  match parent n with
  | None => Raise AttributeError
  | Some p =>
      pn ← deref h p;
      if bool_decide (visits pn <= 0) then Raise ValueError else
      let q := (ln (IZR (visits pn)) / IZR (visits n))%R in
      if Rlt_dec q 0 then Raise ValueError else
      Ok (ucb_val + explore_faction * sqrt q)%R
  end.

(** The body of the two selection loops:
    [if val >= best[0]: best = (val, c_node)]. *)
Definition keep_best (score : nat -> result R) (best : R * option nat)
    (c_node : nat) : result (R * option nat) :=
  val ← score c_node;
  if Rge_dec val best.1 then Ok (val, Some c_node) else Ok best.

(** The score of a child in [traverse_nodes]: the perspective flag is
    recomputed from the live state for every child, then [ucb]. *)
Definition child_score (h : heap) (state : option State) (bot_identity : Z)
    (c_node : nat) : result R :=
  s ← the_state state;
  let opponent := bool_decide (current_player board s ≠ bot_identity) in
  ucb h c_node opponent.

(** [board.next_state(state, best_node[1].parent_action)] *)
Definition next_of (state : option State) (a : option Action)
    : result (option State) :=
  s ← the_state state;
  match a with
  | Some a => Ok (next_state board s a)
  | None => Raise TypeError
  end.

(** [traverse_nodes], lines 9-39 ([mcts_modified.py]: 11-41); [fuel]
    bounds the depth of the recursion. *)
Fixpoint traverse_nodes (fuel : nat) (h : heap) (nd : nat)
    (state : option State) (bot_identity : Z) : result (nat * option State) :=
  match fuel with
  | O => Stuck OutOfFuel
  | S fuel' =>
      n ← deref h nd;
      if bool_decide (untried_actions n ≠ []) then Ok (nd, state) else
      best_node ← foldM (keep_best (child_score h state bot_identity))
                        (0%R, None) (child_nodes n).*2;
      match best_node.2 with
      | Some c =>
          cn ← deref h c;
          best_state ← next_of state (parent_action cn);
          traverse_nodes fuel' h c best_state bot_identity
      | None => Ok (nd, state)
      end
  end.

(** [expand_leaf], lines 42-64 (44-66).  The new child is allocated at the
    end of the arena. *)
Definition expand_leaf (h : heap) (k : nat) (nd : nat) (state : option State)
    : result (nat * option State * heap * nat) :=
  s ← the_state state;
  n ← deref h nd;
  if negb (is_ended board s) && bool_decide (untried_actions n ≠ []) then
    '(new_action, k') ← choice rnd k (untried_actions n);
    let n' := mkNode (parent n) (parent_action n)
                (dict_update new_action (length h) (child_nodes n))
                (list_remove new_action (untried_actions n))
                (wins n) (visits n) in
    let new_state := next_state board s new_action in
    ns ← the_state new_state;
    let child := new_node (Some nd) (Some new_action) (legal_actions board ns) in
    Ok (length h, new_state, <[nd := n']> h ++ [child], k')
  else Ok (nd, state, h, k).

(** [backpropagate], lines 87-100 (114-127); [fuel] bounds the walk up
    the parent links. *)
Fixpoint backpropagate (fuel : nat) (h : heap) (nd : option nat) (won : bool)
    : result heap :=
  match nd with
  | None => Ok h
  | Some a =>
      match fuel with
      | O => Stuck OutOfFuel
      | S fuel' =>
          n ← deref h a;
          backpropagate fuel' (<[a := credit won n]> h) (parent n) won
      end
  end.

(** [c_node.wins / c_node.visits] in [get_best_action]; the quotient is
    taken to fit a float ([Checked.win_rate] has the check). *)
Definition win_rate (h : heap) (c_node : nat) : result R :=
  n ← deref h c_node;
  if bool_decide (visits n = 0) then Raise ZeroDivisionError else
  Ok (IZR (wins n) / IZR (visits n))%R.

(** [get_best_action], lines 120-135 (148-163); [best_pick[1]] is [None]
    when no child was picked, and reading [parent_action] from it fails. *)
Definition get_best_action (h : heap) (root_node : nat) : result (option Action) :=
  n ← deref h root_node;
  best_pick ← foldM (keep_best (win_rate h)) (0%R, None) (child_nodes n).*2;
  match best_pick.2 with
  | Some c => cn ← deref h c; Ok (parent_action cn)
  | None => Raise AttributeError
  end.

(** [is_win], lines 138-142 (166-170) *)
Definition is_win (state : option State) (identity_of_bot : Z) : result bool :=
  s ← the_state state;
  match points_values board s with
  | None => Raise AssertionError
  | Some outcome =>
      match outcome !! identity_of_bot with
      | Some v => Ok (bool_decide (v = 1))
      | None => Raise KeyError
      end
  end.

End Model.

(** ** The arithmetic of [ucb] and of the final selection with the
    conversion checks of the interpreter *)

Module Checked.
Section Checked.
Context {Action : Type}.

(** Lines 112-116 of [mcts_vanilla.py] (139-143 of [mcts_modified.py]), in
    the order of evaluation: [node.wins / node.visits], the flip,
    [node.parent.visits], [math.log], the division by [node.visits], which
    converts it to a float, [math.sqrt], the sum. *)
Definition ucb (h : list (MCTSNode Action)) (c_node : nat) (is_opponent : bool)
    : result R :=
  n ← deref h c_node;
  ucb_val ← true_div (wins n) (visits n);
  let ucb_val := if is_opponent then (1 - ucb_val)%R else ucb_val in
  match parent n with
  | None => Raise AttributeError
  | Some p =>
      pn ← deref h p;
      if bool_decide (visits pn <= 0) then Raise ValueError else
      q ← div_by_int (ln (IZR (visits pn))) (visits n);
      if Rlt_dec q 0 then Raise ValueError else
      Ok (ucb_val + explore_faction * sqrt q)%R
  end.

(** Line 131 (159): [c_node.wins / c_node.visits] *)
Definition win_rate (h : list (MCTSNode Action)) (c_node : nat) : result R :=
  n ← deref h c_node;
  true_div (wins n) (visits n).

End Checked.
End Checked.

(** ** The search driver *)

(** The state a decision runs in: the arena of nodes (the root is node 0),
    the draw counter of [random], and the module-level [last_good_replies]
    (the vanilla module has no such table and leaves it alone). *)
Record world (Action : Type) `{Countable Action} : Type := mkWorld {
  nodes : list (MCTSNode Action);
  draws : nat;
  replies : gmap Action Action
}.
Arguments mkWorld {Action _ _} _ _ _.
Arguments nodes {Action _ _} w.
Arguments draws {Action _ _} w.
Arguments replies {Action _ _} w.

Section Driver.
Context {Action State : Type} `{Countable Action}.
Variable board : Board Action State.
Variable rnd : nat -> nat.

(** The rollout and scoring lines of [think], the only ones in which the
    two modules differ: from a state, the identity of the bot, the draw
    counter and the reply table to the win flag, the new counter and the
    new table. *)
Variable simulate :
  nat -> option State -> Z -> nat -> gmap Action Action ->
  result (bool * nat * gmap Action Action).

(** One pass of the [for] loop of [think]. *)
Definition iteration (fuel : nat) (current_state : State) (bot_identity : Z)
    (w : world Action) : result (world Action) :=
  '(nd, state) ← traverse_nodes board fuel (nodes w) 0%nat
                    (Some current_state) bot_identity;
  '(nd, state, h, k) ← expand_leaf board rnd (nodes w) (draws w) nd state;
  '(win, k, t) ← simulate fuel state bot_identity k (replies w);
  h ← backpropagate fuel h (Some nd) win;
  Ok (mkWorld h k t).

Fixpoint iterations (n : nat) (fuel : nat) (current_state : State)
    (bot_identity : Z) (w : world Action) : result (world Action) :=
  match n with
  | O => Ok w
  | S n' =>
      w' ← iteration fuel current_state bot_identity w;
      iterations n' fuel current_state bot_identity w'
  end.

(** [think] up to the end of its loop, run for [num_nodes] passes. *)
Definition search (num_nodes : nat) (fuel : nat) (current_state : State)
    (k : nat) (t : gmap Action Action) : result (world Action) :=
  let bot_identity := current_player board current_state in
  let root_node := new_node None None (legal_actions board current_state) in
  iterations num_nodes fuel current_state bot_identity (mkWorld [root_node] k t).

(** [think]; the diagnostic [print] is not modelled. *)
Definition think_with (num_nodes : nat) (fuel : nat) (current_state : State)
    (k : nat) (t : gmap Action Action)
    : result (option Action * world Action) :=
  w ← search num_nodes fuel current_state k t;
  best_action ← get_best_action (nodes w) 0%nat;
  Ok (best_action, w).

End Driver.

(** ** [mcts_vanilla.py] *)

Module Vanilla.
Section Vanilla.
Context {Action State : Type} `{Countable Action}.
Variable board : Board Action State.
Variable rnd : nat -> nat.

Definition num_nodes : nat := 100.

(** [rollout], lines 67-84; [fuel] bounds the length of the playout.  When
    [next_state] gives [None] the loop is left with the state unchanged. *)
Fixpoint rollout (fuel : nat) (state : option State) (k : nat)
    : result (option State * nat) :=
  match fuel with
  | O => Stuck OutOfFuel
  | S fuel' =>
      s ← the_state state;
      if is_ended board s then Ok (state, k) else
      '(new_action, k') ← choice rnd k (legal_actions board s);
      match next_state board s new_action with
      | None => Ok (state, k')
      | Some s' => rollout fuel' (Some s') k'
      end
  end.

(** [rollout_state = rollout(board, state)] then
    [win = is_win(board, rollout_state, bot_identity)] *)
Definition simulate (fuel : nat) (state : option State) (bot_identity : Z)
    (k : nat) (t : gmap Action Action)
    : result (bool * nat * gmap Action Action) :=
  '(rollout_state, k') ← rollout fuel state k;
  win ← is_win board rollout_state bot_identity;
  Ok (win, k', t).

Definition think := think_with board rnd simulate num_nodes.

End Vanilla.
End Vanilla.

(** ** [mcts_modified.py] *)

Module Modified.
Section Modified.
Context {Action State : Type} `{Countable Action}.
Variable board : Board Action State.
Variable rnd : nat -> nat.

Definition num_nodes : nat := 900.

(** Lines 84-89: the remembered reply to the previous action if it is
    legal, a random legal action otherwise. *)
Definition pick_action (t : gmap Action Action) (prev_action : option Action)
    (s : State) (k : nat) : result (Action * nat) :=
  match prev_action ≫= (t !!.) with
  | Some new_action =>
      if bool_decide (new_action ∈ legal_actions board s)
      then Ok (new_action, k)
      else choice rnd k (legal_actions board s)
  | None => choice rnd k (legal_actions board s)
  end.

(** Lines 83-95: the playout loop with its history [action_used]. *)
Fixpoint playout (fuel : nat) (t : gmap Action Action) (state : option State)
    (action_used : list (Action * Z)) (prev_action : option Action) (k : nat)
    : result (option State * list (Action * Z) * nat) :=
  match fuel with
  | O => Stuck OutOfFuel
  | S fuel' =>
      s ← the_state state;
      if is_ended board s then Ok (state, action_used, k) else
      '(new_action, k') ← pick_action t prev_action s k;
      match next_state board s new_action with
      | None => Ok (state, action_used, k')
      | Some s' =>
          playout fuel' t (Some s')
            (action_used ++ [(new_action, current_player board s')])
            (Some new_action) k'
      end
  end.

(** Lines 98-99 *)
Definition winner_of (bot_identity : Z) (we_won : bool) : Z :=
  let winning_bot := if we_won then bot_identity else bot_identity + 1 in
  if bool_decide (winning_bot <= 2) then winning_bot else 1.

(** [rollout], lines 69-110 *)
Definition rollout (fuel : nat) (state : option State) (bot_identity : Z)
    (k : nat) (t : gmap Action Action)
    : result (option State * bool * nat * gmap Action Action) :=
  '(state', action_used, k') ← playout fuel t state [] None k;
  we_won ← is_win board state' bot_identity;
  let winning_bot := winner_of bot_identity we_won in
  Ok (state', we_won, k', update_replies winning_bot action_used t).

(** [rollout_state, win = rollout(board, state, bot_identity)] *)
Definition simulate (fuel : nat) (state : option State) (bot_identity : Z)
    (k : nat) (t : gmap Action Action)
    : result (bool * nat * gmap Action Action) :=
  '(_, win, k', t') ← rollout fuel state bot_identity k t;
  Ok (win, k', t').

Definition think := think_with board rnd simulate num_nodes.

End Modified.
End Modified.

(** ** Shape of the arena *)

Section Shape.
Context {Action : Type}.
Implicit Types h : list (MCTSNode Action).

Definition parent_of h (a : nat) : option nat := h !! a ≫= parent.

(** [on_path h a b]: [b] is [a] or one of its ancestors along the parent
    links of [h]. *)
Inductive on_path h : nat -> nat -> Prop :=
  | on_path_here a : on_path h a a
  | on_path_up a p b : parent_of h a = Some p -> on_path h p b -> on_path h a b.

(** Parent links point to older nodes: the links form no cycle. *)
Definition parents_below h : Prop :=
  forall a p, parent_of h a = Some p -> (p < a)%nat.

(** The arena of a search in progress.  Node 0 is the root and the only
    node without a parent; children point back to their parent; the
    statistics are ordered; a node is visited no more often than its
    parent; and every node other than the root and [fresh] has been
    visited. *)
Record wf_except (fresh : nat) h : Prop := {
  wf_root : parent_of h 0%nat = None /\ (0 < length h)%nat;
  wf_below : parents_below h;
  wf_orphan : forall a n, h !! a = Some n -> parent n = None -> a = 0%nat;
  wf_child : forall a n k c, h !! a = Some n -> (k, c) ∈ child_nodes n ->
               parent_of h c = Some a;
  wf_stats : forall a n, h !! a = Some n -> 0 <= wins n <= visits n;
  wf_mono : forall a n p pn, h !! a = Some n -> parent n = Some p ->
               h !! p = Some pn -> visits n <= visits pn;
  wf_seen : forall a n, h !! a = Some n -> a ≠ 0%nat -> a ≠ fresh ->
               1 <= visits n
}.

Definition wf h : Prop := wf_except 0%nat h.

(** What one backpropagation from [leaf] does to the arena [h]. *)
Definition credited (won : bool) (leaf : nat) h h' : Prop :=
  length h' = length h /\
  forall a n, h !! a = Some n ->
    (on_path h leaf a -> h' !! a = Some (credit won n)) /\
    (~ on_path h leaf a -> h' !! a = Some n).

End Shape.

(** Every child sits in the dict of its parent under its own
    [parent_action]. *)
Definition keyed {Action} (h : list (MCTSNode Action)) : Prop :=
  forall a n k c, h !! a = Some n -> (k, c) ∈ child_nodes n ->
    exists cn, h !! c = Some cn /\ parent_action cn = Some k.

(** The actions of the root, tried or not, are among [acts]. *)
Definition root_within {Action} (acts : list Action)
    (h : list (MCTSNode Action)) : Prop :=
  forall r a, h !! 0%nat = Some r ->
    a ∈ untried_actions r \/ a ∈ (child_nodes r).*1 -> a ∈ acts.

Definition root_has_child {Action} (h : list (MCTSNode Action)) : Prop :=
  exists r, h !! 0%nat = Some r /\ child_nodes r ≠ [].

(** [descends board h nd state nd' state']: [nd'] is [nd] or lies below it
    along child links of [h], and [state'] is [state] after the parent
    actions of the nodes on the way down. *)
Inductive descends {Action State} (board : Board Action State)
    (h : list (MCTSNode Action))
    : nat -> option State -> nat -> option State -> Prop :=
  | descends_here nd state : descends board h nd state nd state
  | descends_step nd state n k c cn s a nd' state' :
      h !! nd = Some n -> (k, c) ∈ child_nodes n -> h !! c = Some cn ->
      state = Some s -> parent_action cn = Some a ->
      descends board h c (next_state board s a) nd' state' ->
      descends board h nd state nd' state'.

(** The exceptions that come from the adapter, from [random.choice] or
    from scoring, as opposed to those of the arithmetic of [ucb]. *)
Definition outside_ucb (e : exn) : Prop :=
  e = TypeError \/ e = IndexError \/ e = AssertionError \/ e = KeyError.

(** [replay board s hist s']: [hist] records a play from [s] to [s'] move
    by move, each action paired with the player to move in the state the
    action leads to. *)
Inductive replay {Action State} (board : Board Action State)
    : State -> list (Action * Z) -> State -> Prop :=
  | replay_nil s : replay board s [] s
  | replay_cons s a s1 hist s' :
      is_ended board s = false ->
      a ∈ legal_actions board s ->
      next_state board s a = Some s1 ->
      replay board s1 hist s' ->
      replay board s ((a, current_player board s1) :: hist) s'.

(** The visit count of the root of a search in progress. *)
Definition root_visits {Action} `{Countable Action} (w : world Action)
    : option Z :=
  visits <$> nodes w !! 0%nat.





(** [scored_last_best score cs i c v]: child [c], at position [i] of the
    iteration order [cs], has score [v]; no sibling scores higher and no
    sibling iterated later scores as high. *)
Definition scored_last_best (score : nat -> result R) (cs : list nat)
    (i : nat) (c : nat) (v : R) : Prop :=
  cs !! i = Some c /\ score c = Ok v /\
  forall j c' v', cs !! j = Some c' -> score c' = Ok v' ->
    (v' <= v)%R /\ ((i < j)%nat -> (v' < v)%R).

(** ** Example games *)

(** A game of one move: from state 0 the only action 0 leads to the terminal
    state 1, which player 1 has won. *)
Definition one_move : Board nat nat := {|
  current_player s := if decide (s = 0%nat) then 1 else 2;
  legal_actions s := if decide (s = 0%nat) then [0%nat] else [];
  next_state s a := if decide (s = 0%nat) then Some 1%nat else None;
  is_ended s := bool_decide (s = 1%nat);
  points_values s :=
    if decide (s = 1%nat) then Some (<[1 := 1]> (<[2 := -1]> ∅)) else None
|}.

(** A game that is over at its start: no legal action, player 1 has won. *)
Definition finished : Board nat nat := {|
  current_player s := 1;
  legal_actions s := [];
  next_state s a := None;
  is_ended s := true;
  points_values s := Some (<[1 := 1]> (<[2 := -1]> ∅))
|}.

(** A game with a dead end: state 0 leads by action 0 to state 1, which is
    not terminal and whose only action 0 has no next state.  No state is
    terminal, so no state has an outcome. *)
Definition dead_end : Board nat nat := {|
  current_player s := if decide (s = 0%nat) then 1 else 2;
  legal_actions s := [0%nat];
  next_state s a := if decide (s = 0%nat) then Some 1%nat else None;
  is_ended s := false;
  points_values s := None
|}.

(** A two-player race to 4: a move adds 1 to the counter and passes the
    turn; at 4 the game is over and the player who moved last has won. *)
Definition race4 : Board nat nat := {|
  current_player s := if Nat.even s then 1 else 2;
  legal_actions s := if decide (s < 4)%nat then [s] else [];
  next_state s a := if decide (s < 4)%nat then Some (S s) else None;
  is_ended s := bool_decide (4 <= s)%nat;
  points_values s :=
    if decide (4 <= s)%nat then Some (<[1 := -1]> (<[2 := 1]> ∅)) else None
|}.

(** A game that is stuck at its start: not terminal, and no legal action. *)
Definition stalled : Board nat nat := {|
  current_player s := 1;
  legal_actions s := [];
  next_state s a := None;
  is_ended s := false;
  points_values s := None
|}.

(** The number of moves left in the race to 4. *)
Definition race4_left (s : nat) : nat := (4 - s)%nat.

Definition first_draw : nat -> nat := fun _ => 0%nat.

(** The arena of the one-move game after [k] completed passes (k >= 1). *)
Definition one_move_nodes (k : Z) : list (MCTSNode nat) :=
  [ mkNode None None [(0%nat, 1%nat)] [] k k;
    mkNode (Some 0%nat) (Some 0%nat) [] [] k k ].



(** A small tree: the root 0 has the children 1 and 3, node 1 has the
    child 2. *)
Definition family : list (MCTSNode nat) :=
  [ mkNode None None [(0%nat, 1%nat); (1%nat, 3%nat)] [] 3 5;
    mkNode (Some 0%nat) (Some 0%nat) [(0%nat, 2%nat)] [] 2 3;
    mkNode (Some 1%nat) (Some 0%nat) [] [] 1 1;
    mkNode (Some 0%nat) (Some 1%nat) [] [] 0 1 ].

(** * Properties *)

(** ** Results *)

Lemma bind_Ok {A B} (m : result A) (f : A -> result B) (b : B) :
  (m ≫= f) = Ok b -> exists a, m = Ok a /\ f a = Ok b.
Proof. destruct m; simpl; intros; [eauto | discriminate..]. Qed.

Lemma bind_Raise {A B} (m : result A) (f : A -> result B) (e : exn) :
  (m ≫= f) = Raise e -> m = Raise e \/ exists a, m = Ok a /\ f a = Raise e.
Proof. destruct m; simpl; intros; [eauto | left; congruence | discriminate]. Qed.

Lemma deref_Ok {Action} (h : list (MCTSNode Action)) a n :
  deref h a = Ok n <-> h !! a = Some n.
Proof. unfold deref. destruct (h !! a); split; congruence. Qed.

Lemma deref_Raise {Action} (h : list (MCTSNode Action)) a e :
  deref h a ≠ Raise e.
Proof. unfold deref. destruct (h !! a); congruence. Qed.

(** ** The reply table *)

Section ReplyTableFacts.
Context {Action : Type} `{Countable Action}.

Lemma update_replies_nil w (t : gmap Action Action) :
  update_replies w [] t = t.
Proof. reflexivity. Qed.

Lemma update_replies_loser w hist a m (t : gmap Action Action) :
  m ≠ w ->
  update_replies w (hist ++ [(a, m)]) t = update_replies w hist t.
Proof.
  intros Hm. unfold update_replies. rewrite rev_unit. simpl.
  by rewrite bool_decide_true.
Qed.

Lemma update_replies_winner_alone w a (t : gmap Action Action) :
  update_replies w [(a, w)] t = t.
Proof.
  unfold update_replies. simpl. by rewrite bool_decide_false by auto.
Qed.

Lemma update_replies_winner w hist pa pm a (t : gmap Action Action) :
  update_replies w (hist ++ [(pa, pm); (a, w)]) t
  = update_replies w hist (<[pa := a]> t).
Proof.
  unfold update_replies.
  replace (hist ++ [(pa, pm); (a, w)]) with ((hist ++ [(pa, pm)]) ++ [(a, w)])
    by (by rewrite <- app_assoc).
  rewrite !rev_unit. simpl. by rewrite bool_decide_false by auto.
Qed.

End ReplyTableFacts.



(** C1 (as amended): the table update walks the history backward.  A most
    recent entry whose mover is not the winner is dropped without a write; a
    most recent entry of the winner consumes the entry before it and writes
    [table[precedingAction] = action]; the walk goes on until the history is
    exhausted.  For the 4-ply history [(a1,P1); (a2,P2); (a3,P1); (a4,P2)]
    won by P2 it therefore writes [table[a3] = a4] and then
    [table[a1] = a2], and nothing else. *)
Theorem update_replies_pairs :
  forall (Action : Type) (EqA : EqDecision Action) (CA : Countable Action)
         (w : Z) (t : gmap Action Action),
    (forall hist a m, m ≠ w ->
        update_replies w (hist ++ [(a, m)]) t = update_replies w hist t) /\
    (forall hist pa pm a,
        update_replies w (hist ++ [(pa, pm); (a, w)]) t
        = update_replies w hist (<[pa := a]> t)) /\
    (forall a, update_replies w [(a, w)] t = t) /\
    (forall a1 a2 a3 a4 P1,
        update_replies w [(a1, P1); (a2, w); (a3, P1); (a4, w)] t
        = <[a1 := a2]> (<[a3 := a4]> t)).
Proof.
  intros Action EqA CA w t. repeat split.
  - intros. by apply update_replies_loser.
  - intros. apply update_replies_winner.
  - intros. apply update_replies_winner_alone.
  - intros a1 a2 a3 a4 P1.
    change [(a1, P1); (a2, w); (a3, P1); (a4, w)]
      with (([] ++ [(a1, P1); (a2, w)]) ++ [(a3, P1); (a4, w)]).
    rewrite !update_replies_winner. reflexivity.
Qed.

(** C1 (as stated) fails: with actions 1..4, players 1 and 2 and winner 2,
    the update does write an entry for [a1]. *)
Lemma update_replies_writes_first_pair :
  ~ (update_replies 2 [(1%nat, 1); (2%nat, 2); (3%nat, 1); (4%nat, 2)] ∅
       !! 1%nat = None).
Proof. vm_compute. discriminate. Qed.

(** ** Backpropagation *)

Section Backpropagation.
Context {Action : Type}.
Implicit Types h : list (MCTSNode Action).

Lemma parent_of_Some h a p :
  parent_of h a = Some p <-> exists n, h !! a = Some n /\ parent n = Some p.
Proof.
  unfold parent_of. destruct (h !! a) as [n|]; simpl; split.
  - eauto.
  - by intros (n' & [= <-] & ?).
  - discriminate.
  - by intros (? & ? & ?).
Qed.

Lemma parent_of_credit h a n won b :
  h !! a = Some n ->
  parent_of (<[a := credit won n]> h) b = parent_of h b.
Proof.
  intros Ha. unfold parent_of. destruct (decide (a = b)) as [->|Hne].
  - rewrite list_lookup_insert_eq by (by eapply lookup_lt_Some).
    by rewrite Ha.
  - by rewrite list_lookup_insert_ne.
Qed.

Lemma on_path_ext h h' a b :
  (forall x, parent_of h' x = parent_of h x) ->
  on_path h a b -> on_path h' a b.
Proof.
  intros Hext. induction 1 as [|a p b Hp _ IH].
  - constructor.
  - eapply on_path_up; [by rewrite Hext|done].
Qed.

Lemma on_path_le h a b : parents_below h -> on_path h a b -> (b <= a)%nat.
Proof.
  intros Hb. induction 1 as [|a p b Hp _ IH]; [lia|].
  apply Hb in Hp. lia.
Qed.

Lemma on_path_trans h a b c : on_path h a b -> on_path h b c -> on_path h a c.
Proof. induction 1; eauto using on_path_up. Qed.

Lemma parents_below_credit h a n won :
  h !! a = Some n -> parents_below h ->
  parents_below (<[a := credit won n]> h).
Proof.
  intros Ha Hb x p. rewrite (parent_of_credit _ _ _ _ _ Ha). apply Hb.
Qed.

(** Backpropagation from a node of an acyclic arena either credits exactly
    the path to the root, or runs out of fuel; it never raises. *)
Lemma backpropagate_run fuel h a won :
  parents_below h -> (a < length h)%nat ->
  (exists h', backpropagate fuel h (Some a) won = Ok h' /\ credited won a h h')
  \/ (backpropagate fuel h (Some a) won = Stuck OutOfFuel /\ (fuel <= a)%nat).
Proof.
  revert h a. induction fuel as [|fuel IH]; intros h a Hb Ha.
  { right. split; [done|lia]. }
  destruct (lookup_lt_is_Some_2 h a Ha) as [n Hn].
  simpl. unfold deref. rewrite Hn. simpl.
  set (h1 := <[a := credit won n]> h).
  assert (Hext : forall x, parent_of h1 x = parent_of h x)
    by (intros; by apply parent_of_credit).
  assert (Hlen : length h1 = length h) by apply length_insert.
  destruct (parent n) as [p|] eqn:Hp.
  - assert (Hpa : (p < a)%nat).
    { apply Hb. apply parent_of_Some. eauto. }
    destruct (IH h1 p) as [(h' & Hrun & Hlen' & Hcr)|[Hrun Hle]].
    + by apply parents_below_credit.
    + lia.
    + left. exists h'. split; [done|]. split; [congruence|].
      intros b nb Hnb. destruct (decide (b = a)) as [->|Hne].
      * assert (nb = n) by congruence. subst nb.
        split; [intros _|intros []; constructor].
        apply (Hcr a (credit won n)).
        -- unfold h1. by rewrite list_lookup_insert_eq.
        -- intros Hpath. apply on_path_le in Hpath; [lia|].
           by apply parents_below_credit.
      * assert (Hnb1 : h1 !! b = Some nb)
          by (unfold h1; by rewrite list_lookup_insert_ne).
        destruct (Hcr b nb Hnb1) as [Hin Hout]. split.
        -- intros Hpath. apply Hin. apply (on_path_ext h); [done|].
           inversion Hpath as [|? p' ? Hp' Hrest]; subst; [done|].
           apply parent_of_Some in Hp' as (n' & Hn' & Hp'').
           congruence.
        -- intros Hno. apply Hout. intros Hpath. apply Hno.
           eapply on_path_up; [apply parent_of_Some; eauto|].
           apply (on_path_ext h1); [done|done].
    + right. split; [done|lia].
  - left. exists h1. split; [by destruct fuel|]. split; [done|].
    intros b nb Hnb. split.
    + intros Hpath. inversion Hpath as [|? p' ? Hp' Hrest]; subst.
      * assert (nb = n) by congruence. subst.
        unfold h1. by rewrite list_lookup_insert_eq.
      * apply parent_of_Some in Hp' as (n' & Hn' & Hp''). congruence.
    + intros Hno. unfold h1. rewrite list_lookup_insert_ne; [done|].
      intros ->. apply Hno. constructor.
Qed.

(** With fuel beyond the index of the leaf the walk completes. *)
Lemma backpropagate_total fuel h a won :
  parents_below h -> (a < length h)%nat -> (a < fuel)%nat ->
  exists h', backpropagate fuel h (Some a) won = Ok h' /\ credited won a h h'.
Proof.
  intros Hb Ha Hf.
  destruct (backpropagate_run fuel h a won Hb Ha) as [?|[_ ?]]; [done|lia].
Qed.

(** The path from any node ends at a node without parent. *)
Lemma on_path_top h a :
  parents_below h -> (a < length h)%nat ->
  exists r, on_path h a r /\ parent_of h r = None /\ (r < length h)%nat.
Proof.
  intros Hb. induction (lt_wf a) as [a _ IH]. intros Ha.
  destruct (parent_of h a) as [p|] eqn:Hp.
  - assert (p < a)%nat by by apply Hb.
    destruct (IH p) as (r & Hr & Hnone & Hlt); [done|lia|].
    exists r. split; [by eapply on_path_up|done].
  - exists a. split; [constructor|done].
Qed.

(** Backpropagation keeps [wins <= visits]; this needs no assumption on
    the links. *)
Lemma backpropagate_stats fuel h nd won h' :
  (forall a n, h !! a = Some n -> 0 <= wins n <= visits n) ->
  backpropagate fuel h nd won = Ok h' ->
  forall a n, h' !! a = Some n -> 0 <= wins n <= visits n.
Proof.
  revert h nd. induction fuel as [|fuel IH]; intros h nd Hst Hrun.
  { destruct nd; simpl in Hrun; [discriminate|]. by injection Hrun as <-. }
  destruct nd as [a|]; simpl in Hrun; [|by injection Hrun as <-].
  apply bind_Ok in Hrun as (n & Hn%deref_Ok & Hrun).
  eapply IH; [|exact Hrun].
  intros b nb Hb. destruct (decide (a = b)) as [->|Hne].
  - rewrite list_lookup_insert_eq in Hb by (by eapply lookup_lt_Some).
    injection Hb as <-. specialize (Hst _ _ Hn).
    unfold credit; simpl. destruct won; lia.
  - rewrite list_lookup_insert_ne in Hb by done. eauto.
Qed.

End Backpropagation.

(** ** Real-number facts *)

Lemma ln_nonneg (x : R) : (1 <= x)%R -> (0 <= ln x)%R.
Proof.
  intros [Hlt| <-].
  - left. rewrite <- ln_1. apply ln_increasing; lra.
  - rewrite ln_1. lra.
Qed.

Lemma ratio_unit (a b : R) : (0 <= a <= b)%R -> (0 < b)%R -> (0 <= a / b <= 1)%R.
Proof.
  intros [Ha Hab] Hb. split.
  - apply Rle_mult_inv_pos; assumption.
  - apply (Rmult_le_reg_r b); [assumption|].
    unfold Rdiv. rewrite Rmult_assoc, Rinv_l by lra. lra.
Qed.

Lemma win_ratio_unit (w v : Z) :
  0 <= w <= v -> 0 < v -> (0 <= IZR w / IZR v <= 1)%R.
Proof.
  intros [Hw Hv] Hpos. apply ratio_unit.
  - split; apply IZR_le; lia.
  - by apply IZR_lt.
Qed.

Lemma explore_arg_nonneg (pv v : Z) :
  0 < pv -> 0 < v -> (0 <= ln (IZR pv) / IZR v)%R.
Proof.
  intros Hpv Hv. apply Rle_mult_inv_pos.
  - apply ln_nonneg. apply (IZR_le 1). lia.
  - by apply (IZR_lt 0).
Qed.

(** ** The selection policy and the two selection loops *)

Section Selection.
Context {Action State : Type} `{Countable Action}.
Variable board : Board Action State.
Implicit Types h : list (MCTSNode Action).

(** The value of [ucb] on a visited node with a visited parent. *)
Lemma ucb_eval h c n p pn is_opponent :
  h !! c = Some n -> parent n = Some p -> h !! p = Some pn ->
  0 < visits n -> 0 < visits pn ->
  ucb h c is_opponent
  = Ok ((if is_opponent then 1 - IZR (wins n) / IZR (visits n)
         else IZR (wins n) / IZR (visits n))
        + 2 * sqrt (ln (IZR (visits pn)) / IZR (visits n)))%R.
Proof.
  intros Hc Hp Hpn Hv Hpv. unfold ucb, deref. rewrite Hc. simpl.
  rewrite bool_decide_false by lia. rewrite Hp, Hpn. simpl.
  rewrite bool_decide_false by lia.
  destruct (Rlt_dec _ _) as [Hneg|_].
  - pose proof (explore_arg_nonneg _ _ Hpv Hv). lra.
  - unfold explore_faction. by destruct is_opponent.
Qed.

Lemma ucb_nonneg h c n p pn is_opponent v :
  h !! c = Some n -> parent n = Some p -> h !! p = Some pn ->
  0 <= wins n <= visits n -> 0 < visits n -> 0 < visits pn ->
  ucb h c is_opponent = Ok v -> (0 <= v)%R.
Proof.
  intros Hc Hp Hpn Hw Hv Hpv.
  rewrite (ucb_eval _ _ _ _ _ _ Hc Hp Hpn Hv Hpv). intros [= <-].
  pose proof (win_ratio_unit _ _ Hw Hv).
  pose proof (sqrt_pos (ln (IZR (visits pn)) / IZR (visits n))).
  destruct is_opponent; lra.
Qed.

(** [ucb] raises exactly on the inputs its formula is undefined on. *)
Lemma ucb_Raise h c is_opponent e :
  ucb h c is_opponent = Raise e ->
  exists n, h !! c = Some n /\
    (visits n = 0 \/ parent n = None \/
     exists p pn, parent n = Some p /\ h !! p = Some pn /\
       (visits pn <= 0 \/
        (ln (IZR (visits pn)) / IZR (visits n) < 0)%R)).
Proof.
  unfold ucb. intros Hr.
  apply bind_Raise in Hr as [Hr|(n & Hn%deref_Ok & Hr)];
    [by apply deref_Raise in Hr|].
  exists n. split; [done|].
  case_bool_decide; [by left|]. right.
  destruct (parent n) as [p|]; [|by left]. right.
  apply bind_Raise in Hr as [Hr|(pn & Hpn%deref_Ok & Hr)];
    [by apply deref_Raise in Hr|].
  exists p, pn. split; [done|]. split; [done|].
  case_bool_decide; [by left|]. right.
  by destruct (Rlt_dec _ _).
Qed.

Lemma keep_best_Ok score (best : R * option nat) c r :
  keep_best score best c = Ok r ->
  exists v, score c = Ok v /\
    (((v >= best.1)%R /\ r = (v, Some c)) \/ ((v < best.1)%R /\ r = best)).
Proof.
  unfold keep_best. intros (v & Hv & Hr)%bind_Ok. exists v. split; [done|].
  destruct (Rge_dec _ _); injection Hr as <-; [left|right]; split; try done; lra.
Qed.

(** The selection loop raises only what a score raises. *)
Lemma select_Raise score best cs e :
  foldM (keep_best score) best cs = Raise e ->
  exists c, c ∈ cs /\ score c = Raise e.
Proof.
  revert best. induction cs as [|c cs IH]; intros best Hr; [discriminate|].
  simpl in Hr. apply bind_Raise in Hr as [Hr|(b' & _ & Hr)].
  - exists c. split; [left|]. unfold keep_best in Hr.
    apply bind_Raise in Hr as [Hr|(v & _ & Hr)]; [done|].
    by destruct (Rge_dec _ _).
  - destruct (IH _ Hr) as (c' & ? & ?). exists c'. split; [by right|done].
Qed.

(** The selection loop completes when every score is defined. *)
Lemma select_total score best cs :
  (forall c, c ∈ cs -> exists v, score c = Ok v) ->
  exists r, foldM (keep_best score) best cs = Ok r.
Proof.
  revert best. induction cs as [|c cs IH]; intros best Hall; [by eexists|].
  destruct (Hall c) as [v Hv]; [left|].
  assert (exists b', keep_best score best c = Ok b') as [b' Hk].
  { unfold keep_best. rewrite Hv. simpl. destruct (Rge_dec _ _); eauto. }
  cbn [foldM]. rewrite Hk. simpl. apply IH. intros; apply Hall; by right.
Qed.

(** What the selection loop returns, from any running best. *)
Lemma select_spec score cs : forall (b : R) (o : option nat) (v : R) r,
  foldM (keep_best score) (b, o) cs = Ok (v, r) ->
  (b <= v)%R /\
  (forall j c' v', cs !! j = Some c' -> score c' = Ok v' -> (v' <= v)%R) /\
  ((r = o /\ v = b /\
    forall j c' v', cs !! j = Some c' -> score c' = Ok v' -> (v' < b)%R)
   \/ exists i c, r = Some c /\ cs !! i = Some c /\ score c = Ok v /\
        forall j c' v', (i < j)%nat -> cs !! j = Some c' ->
          score c' = Ok v' -> (v' < v)%R).
Proof.
  induction cs as [|x cs IH]; intros b o v r Hrun.
  { injection Hrun as <- <-. split; [lra|]. split; [by intros []|].
    left. repeat split; by intros []. }
  simpl in Hrun. apply bind_Ok in Hrun as (acc & Hstep & Hrun).
  apply keep_best_Ok in Hstep as (vx & Hvx & [[Hge ->]|[Hlt ->]]);
    simpl in *; apply IH in Hrun as (Hle & Hmax & Hsel).
  - split; [lra|]. split.
    + intros [|j] c' v' Hj Hs; simpl in Hj; [|by eapply Hmax].
      injection Hj as <-. assert (v' = vx) by congruence. lra.
    + right. destruct Hsel as [(-> & -> & Hlater)|(i & c & -> & Hi & Hs & Hlater)].
      * exists 0%nat, x. repeat split; try done.
        intros [|j] c' v' Hj Hc Hs; [lia|]. by eapply Hlater.
      * exists (S i), c. repeat split; try done.
        intros [|j] c' v' Hj Hc Hs'; [lia|].
        eapply (Hlater j); [lia|done..].
  - split; [lra|]. split.
    + intros [|j] c' v' Hj Hs; simpl in Hj; [|by eapply Hmax].
      injection Hj as <-. assert (v' = vx) by congruence. lra.
    + destruct Hsel as [(-> & -> & Hlater)|(i & c & -> & Hi & Hs & Hlater)].
      * left. repeat split; try done.
        intros [|j] c' v' Hj Hs; simpl in Hj; [|by eapply Hlater].
        injection Hj as <-. assert (v' = vx) by congruence. lra.
      * right. exists (S i), c. repeat split; try done.
        intros [|j] c' v' Hj Hc Hs'; [lia|].
        eapply (Hlater j); [lia|done..].
Qed.

(** From the initial best [(0, None)], over scores that are defined and
    not negative, the loop selects the last of the best children. *)
Lemma select_last_best score cs :
  cs ≠ [] ->
  (forall c, c ∈ cs -> exists v, score c = Ok v /\ (0 <= v)%R) ->
  exists i c v, scored_last_best score cs i c v /\
    foldM (keep_best score) (0%R, None) cs = Ok (v, Some c).
Proof.
  intros Hne Hall.
  destruct (select_total score (0%R, None) cs) as [[v r] Hrun].
  { intros c Hc. destruct (Hall c Hc) as (v & ? & _). eauto. }
  destruct (select_spec _ _ _ _ _ _ Hrun)
    as (_ & Hmax & [(-> & -> & Hlater)|(i & c & -> & Hi & Hs & Hlater)]).
  - destruct cs as [|c cs]; [done|].
    destruct (Hall c) as (v & Hv & Hpos); [left|].
    specialize (Hlater 0%nat c v eq_refl Hv). lra.
  - exists i, c, v. split; [|done]. repeat split; try done.
    + by eapply Hmax.
    + intros. by eapply Hlater.
Qed.

End Selection.

(** ** The arena invariant through the phases of a pass *)

Section Phases.
Context {Action State : Type} `{Countable Action}.
Variable board : Board Action State.
Variable rnd : nat -> nat.
Implicit Types h : list (MCTSNode Action).

Lemma the_state_Raise (state : option State) e :
  the_state state = Raise e -> e = TypeError.
Proof. destruct state; simpl; congruence. Qed.

Lemma next_of_Raise state a e :
  next_of board state a = Raise e -> e = TypeError.
Proof.
  unfold next_of. destruct state; simpl; [|congruence].
  destruct a; congruence.
Qed.

Lemma choice_elem {A} k (l : list A) x k' :
  choice rnd k l = Ok (x, k') -> x ∈ l.
Proof.
  unfold choice. destruct l as [|y l]; [discriminate|].
  destruct (_ !! _) eqn:Hl; [|discriminate].
  intros [= <- <-]. by eapply list_elem_of_lookup_2.
Qed.

Lemma choice_Raise {A} k (l : list A) e :
  choice rnd k l = Raise e -> e = IndexError.
Proof.
  unfold choice. destruct l; [congruence|].
  destruct (_ !! _); congruence.
Qed.

(** Every child of a node of a well-formed arena has been visited, and so
    has the node. *)
Lemma wf_child_seen h a n k c :
  wf h -> h !! a = Some n -> (k, c) ∈ child_nodes n ->
  exists cn, h !! c = Some cn /\ parent cn = Some a /\
    1 <= visits cn /\ 1 <= visits n /\ 0 <= wins cn <= visits cn.
Proof.
  intros Hwf Ha Hc.
  pose proof (wf_child _ _ Hwf _ _ _ _ Ha Hc) as Hp.
  pose proof (wf_below _ _ Hwf _ _ Hp) as Hlt.
  apply parent_of_Some in Hp as (cn & Hcn & Hp).
  assert (1 <= visits cn) by (eapply (wf_seen _ _ Hwf); [done|lia|lia]).
  pose proof (wf_mono _ _ Hwf _ _ _ _ Hcn Hp Ha).
  exists cn. repeat split; try done; try lia; by eapply (wf_stats _ _ Hwf).
Qed.

(** In a well-formed arena [ucb] is defined on every child. *)
Lemma wf_ucb_defined h a n k c is_opponent :
  wf h -> h !! a = Some n -> (k, c) ∈ child_nodes n ->
  exists v, ucb h c is_opponent = Ok v /\ (0 <= v)%R.
Proof.
  intros Hwf Ha Hc.
  destruct (wf_child_seen _ _ _ _ _ Hwf Ha Hc) as (cn & Hcn & Hp & ? & ? & ?).
  eexists. split; [by eapply ucb_eval; eauto; lia|].
  eapply ucb_nonneg; eauto; [lia..|]. eapply ucb_eval; eauto; lia.
Qed.

Lemma traverse_valid fuel h nd state id nd' state' :
  traverse_nodes board fuel h nd state id = Ok (nd', state') ->
  (nd' < length h)%nat.
Proof.
  revert nd state. induction fuel as [|fuel IH]; intros nd state Hrun;
    [discriminate|].
  simpl in Hrun. apply bind_Ok in Hrun as (n & Hn%deref_Ok & Hrun).
  case_bool_decide.
  { injection Hrun as <- <-. by eapply lookup_lt_Some. }
  apply bind_Ok in Hrun as ([v [c|]] & _ & Hrun); simpl in Hrun.
  - apply bind_Ok in Hrun as (cn & _ & Hrun).
    apply bind_Ok in Hrun as (st & _ & Hrun). by eapply IH.
  - injection Hrun as <- <-. by eapply lookup_lt_Some.
Qed.

(** Traversal of a well-formed arena raises nothing but the [TypeError]
    of a [None] state: no division by zero and no domain error. *)
Lemma traverse_Raise fuel h nd state id e :
  wf h ->
  traverse_nodes board fuel h nd state id = Raise e -> e = TypeError.
Proof.
  intros Hwf. revert nd state.
  induction fuel as [|fuel IH]; intros nd state Hrun; [discriminate|].
  simpl in Hrun.
  apply bind_Raise in Hrun as [Hr|(n & Hn%deref_Ok & Hrun)];
    [by apply deref_Raise in Hr|].
  case_bool_decide; [discriminate|].
  apply bind_Raise in Hrun as [Hr|([v [c|]] & _ & Hrun)]; simpl in *.
  - apply select_Raise in Hr as (c & Hc & Hr).
    apply list_elem_of_fmap in Hc as ([k c'] & -> & Hc). simpl in Hr.
    unfold child_score in Hr.
    apply bind_Raise in Hr as [Hr|(s & _ & Hr)];
      [by eapply the_state_Raise|].
    destruct (wf_ucb_defined h nd n k c'
                (bool_decide (current_player board s ≠ id)) Hwf Hn Hc)
      as (v & Hv & _).
    congruence.
  - apply bind_Raise in Hrun as [Hr|(cn & _ & Hrun)];
      [by apply deref_Raise in Hr|].
    apply bind_Raise in Hrun as [Hr|(st & _ & Hrun)];
      [by eapply next_of_Raise|].
    by eapply IH.
  - discriminate.
Qed.

(** The two ways [expand_leaf] returns. *)
Lemma expand_leaf_Ok h k nd state nd' state' h' k' :
  expand_leaf board rnd h k nd state = Ok (nd', state', h', k') ->
  (nd' = nd /\ state' = state /\ h' = h /\ k' = k /\ (nd < length h)%nat) \/
  exists s n act ns,
    state = Some s /\ h !! nd = Some n /\ is_ended board s = false /\
    act ∈ untried_actions n /\ next_state board s act = Some ns /\
    state' = Some ns /\ nd' = length h /\
    h' = <[nd := mkNode (parent n) (parent_action n)
                   (dict_update act (length h) (child_nodes n))
                   (list_remove act (untried_actions n))
                   (wins n) (visits n)]> h
         ++ [new_node (Some nd) (Some act) (legal_actions board ns)].
Proof.
  unfold expand_leaf. intros Hrun.
  apply bind_Ok in Hrun as (s & Hs & Hrun).
  apply bind_Ok in Hrun as (n & Hn%deref_Ok & Hrun).
  destruct state as [s0|]; [|discriminate]. injection Hs as ->.
  destruct (negb (is_ended board s) && _) eqn:Hcond.
  - right. apply andb_prop in Hcond as [Hend _].
    apply negb_true_iff in Hend.
    apply bind_Ok in Hrun as ([act k1] & Hch & Hrun).
    apply bind_Ok in Hrun as (ns & Hns & Hrun).
    destruct (next_state board s act) as [ns'|] eqn:Hnext; [|discriminate].
    injection Hns as ->. injection Hrun as <- <- <- <-.
    exists s, n, act, ns. repeat split; try done. by eapply choice_elem.
  - left. injection Hrun as <- <- <- <-. repeat split; try done.
    by eapply lookup_lt_Some.
Qed.

Lemma expand_leaf_Raise h k nd state e :
  expand_leaf board rnd h k nd state = Raise e ->
  e = TypeError \/ e = IndexError.
Proof.
  unfold expand_leaf. intros Hrun.
  apply bind_Raise in Hrun as [Hr|(s & _ & Hrun)];
    [left; by eapply the_state_Raise|].
  apply bind_Raise in Hrun as [Hr|(n & _ & Hrun)];
    [by apply deref_Raise in Hr|].
  destruct (negb _ && _); [|discriminate].
  apply bind_Raise in Hrun as [Hr|([act k1] & _ & Hrun)];
    [right; by eapply choice_Raise|].
  apply bind_Raise in Hrun as [Hr|(ns & _ & Hrun)];
    [left; by eapply the_state_Raise|discriminate].
Qed.

Lemma dict_update_elem (k : Action) v d k' v' :
  (k', v') ∈ dict_update k v d -> (k', v') = (k, v) \/ (k', v') ∈ d.
Proof.
  induction d as [|[k0 v0] d IH]; simpl.
  - intros ->%list_elem_of_singleton. by left.
  - case_decide; intros [->|Hin]%elem_of_cons.
    + by left.
    + right. by right.
    + right. by left.
    + destruct (IH Hin); [by left|right; by right].
Qed.

(** Lookup in the arena after an expansion. *)
Lemma lookup_grown h nd (n' child : MCTSNode Action) a x :
  (nd < length h)%nat ->
  (<[nd := n']> h ++ [child]) !! a = Some x ->
  (a = length h /\ x = child) \/
  (a = nd /\ x = n') \/
  (a ≠ nd /\ h !! a = Some x).
Proof.
  intros Hnd Hx. destruct (decide (a < length h)%nat) as [Hlt|Hge].
  - rewrite lookup_app_l in Hx by (by rewrite length_insert).
    destruct (decide (a = nd)) as [->|Hne].
    + rewrite list_lookup_insert_eq in Hx by done. injection Hx as <-. auto.
    + rewrite list_lookup_insert_ne in Hx by done. auto.
  - rewrite lookup_app_r in Hx by (rewrite length_insert; lia).
    rewrite length_insert in Hx.
    destruct (a - length h)%nat as [|m] eqn:Hm; simpl in Hx; [|done].
    injection Hx as <-. left. split; [lia|done].
Qed.

Lemma parent_of_grown h nd n (n' child : MCTSNode Action) a :
  h !! nd = Some n -> parent n' = parent n ->
  parent_of (<[nd := n']> h ++ [child]) a
  = if decide (a = length h) then parent child else parent_of h a.
Proof.
  intros Hn Hp. assert (nd < length h)%nat by (by eapply lookup_lt_Some).
  unfold parent_of. case_decide as Ha.
  - subst a. rewrite lookup_app_r by (rewrite length_insert; lia).
    rewrite length_insert. by rewrite Nat.sub_diag.
  - destruct (decide (a < length h)%nat).
    + rewrite lookup_app_l by (by rewrite length_insert).
      destruct (decide (a = nd)) as [->|].
      * rewrite list_lookup_insert_eq by done. rewrite Hn. simpl. done.
      * by rewrite list_lookup_insert_ne.
    + rewrite !lookup_ge_None_2; [done|lia|].
      rewrite length_app, length_insert. simpl. lia.
Qed.

(** Expansion keeps the invariant, except that the node it returns may
    be unvisited; it leaves the statistics of the old nodes alone. *)
Lemma expand_leaf_wf h k nd state nd' state' h' k' :
  wf h ->
  expand_leaf board rnd h k nd state = Ok (nd', state', h', k') ->
  wf_except nd' h' /\ (nd' < length h')%nat /\
  forall a n, h !! a = Some n ->
    exists n', h' !! a = Some n' /\ wins n' = wins n /\ visits n' = visits n.
Proof.
  intros Hwf Hrun.
  apply expand_leaf_Ok in Hrun
    as [(-> & -> & -> & -> & Hlt)
       |(s & n & act & ns & -> & Hn & Hend & Hact & Hnext & -> & -> & ->)].
  { split; [|split; [done|by eauto]].
    destruct Hwf. split; try done. intros. by eapply wf_seen0. }
  assert (Hnd : (nd < length h)%nat) by (by eapply lookup_lt_Some).
  set (n' := mkNode _ _ _ _ _ _).
  set (child := new_node _ _ _).
  assert (Hpar : forall a, parent_of (<[nd := n']> h ++ [child]) a
                   = if decide (a = length h) then Some nd else parent_of h a)
    by (intros; by erewrite parent_of_grown).
  assert (Hn'p : parent n' = parent n) by done.
  assert (Hn'w : wins n' = wins n) by done.
  assert (Hn'v : visits n' = visits n) by done.
  assert (Hn'c : child_nodes n'
                 = dict_update act (length h) (child_nodes n)) by done.
  assert (Hcp : parent child = Some nd) by done.
  assert (Hcw : wins child = 0) by done.
  assert (Hcv : visits child = 0) by done.
  assert (Hcc : child_nodes child = []) by done.
  clearbody n' child.
  pose proof (wf_stats _ _ Hwf _ _ Hn) as Hstn.
  split; [|split].
  - split.
    + rewrite Hpar, length_app, length_insert.
      destruct (wf_root _ _ Hwf) as [Hr Hl].
      rewrite decide_False by lia. split; [done|lia].
    + intros a p. rewrite Hpar. case_decide.
      * intros [= <-]. lia.
      * apply (wf_below _ _ Hwf).
    + intros a x Hx Hnone.
      apply lookup_grown in Hx as [[-> ->]|[[-> ->]|[_ Hx]]]; try done.
      * congruence.
      * rewrite Hn'p in Hnone. by eapply (wf_orphan _ _ Hwf).
      * by eapply (wf_orphan _ _ Hwf).
    + intros a x key c Hx Hc. rewrite Hpar.
      assert (Hold : forall b y, h !! b = Some y -> (key, c) ∈ child_nodes y ->
                (if decide (c = length h) then Some nd else parent_of h c)
                = Some b).
      { intros b y Hy Hcy.
        pose proof (wf_child _ _ Hwf _ _ _ _ Hy Hcy) as Hp.
        case_decide; [|done]. subst c.
        unfold parent_of in Hp. rewrite lookup_ge_None_2 in Hp by lia.
        done. }
      apply lookup_grown in Hx as [[-> ->]|[[-> ->]|[Hne Hx]]]; try done.
      * rewrite Hcc in Hc. by apply elem_of_nil in Hc.
      * rewrite Hn'c in Hc. apply dict_update_elem in Hc as [[= -> ->]|Hc].
        -- by rewrite decide_True.
        -- by eapply Hold.
      * by eapply Hold.
    + intros a x Hx.
      apply lookup_grown in Hx as [[-> ->]|[[-> ->]|[_ Hx]]]; try done.
      * lia.
      * lia.
      * by eapply (wf_stats _ _ Hwf).
    + intros a x p pn Hx Hp Hpn.
      assert (Hvis : forall b y, (<[nd := n']> h ++ [child]) !! b = Some y ->
                b ≠ length h -> exists y0, h !! b = Some y0 /\
                  visits y = visits y0 /\ parent y = parent y0).
      { intros b y Hy Hb.
        apply lookup_grown in Hy as [[-> ->]|[[-> ->]|[_ Hy]]];
          [done|eauto|eauto|done]. }
      destruct (decide (a = length h)) as [->|Ha].
      * apply lookup_grown in Hx as [[_ ->]|[[? _]|[_ Hx]]]; [|lia| |done].
        -- rewrite Hcp in Hp. injection Hp as <-.
           destruct (Hvis nd pn Hpn) as (y0 & Hy0 & -> & _); [lia|].
           assert (y0 = n) by congruence. subst. lia.
        -- apply lookup_lt_Some in Hx. lia.
      * destruct (Hvis a x Hx Ha) as (x0 & Hx0 & -> & Hpx).
        rewrite Hpx in Hp.
        assert (p < a)%nat.
        { apply (wf_below _ _ Hwf). apply parent_of_Some. eauto. }
        assert (a < length h)%nat by (by eapply lookup_lt_Some).
        destruct (Hvis p pn Hpn) as (p0 & Hp0 & -> & _); [lia|].
        by eapply (wf_mono _ _ Hwf).
    + intros a x Hx Ha0 Hafresh.
      apply lookup_grown in Hx as [[-> ->]|[[-> ->]|[_ Hx]]]; try done.
      * rewrite Hn'v. by eapply (wf_seen _ _ Hwf).
      * by eapply (wf_seen _ _ Hwf).
  - rewrite length_app, length_insert. simpl. lia.
  - intros a x Hx. destruct (decide (a = nd)) as [->|Hne].
    + exists n'. assert (x = n) by congruence. subst x.
      rewrite lookup_app_l by (by rewrite length_insert).
      by rewrite list_lookup_insert_eq.
    + exists x. rewrite lookup_app_l
        by (rewrite length_insert; by eapply lookup_lt_Some).
      by rewrite list_lookup_insert_ne.
Qed.

End Phases.

(** ** One pass and the loop *)

Section Credit.
Context {Action : Type}.
Implicit Types h : list (MCTSNode Action).

Lemma on_path_dec h c a :
  parents_below h -> on_path h c a \/ ~ on_path h c a.
Proof.
  intros Hb. induction (lt_wf c) as [c _ IH].
  destruct (decide (a = c)) as [->|Hne]; [left; constructor|].
  destruct (parent_of h c) as [p|] eqn:Hp.
  - destruct (IH p) as [Hyes|Hno]; [by apply Hb|left; by eapply on_path_up|].
    right. intros Hpath.
    inversion Hpath as [|? p' ? Hp' Hrest]; subst; [done|].
    assert (p' = p) by congruence. by subst.
  - right. intros Hpath.
    inversion Hpath as [|? p' ? Hp' Hrest]; subst; [done|congruence].
Qed.

Lemma credited_lookup won c h h' a n' :
  parents_below h -> credited won c h h' -> h' !! a = Some n' ->
  exists n, h !! a = Some n /\
    ((on_path h c a /\ n' = credit won n) \/ (~ on_path h c a /\ n' = n)).
Proof.
  intros Hb [Hlen Hcr] Hn'.
  assert (Ha : (a < length h)%nat)
    by (rewrite <- Hlen; by eapply lookup_lt_Some).
  destruct (lookup_lt_is_Some_2 h a Ha) as [n Hn]. exists n.
  split; [done|]. destruct (Hcr a n Hn) as [Hin Hout].
  destruct (on_path_dec h c a Hb) as [Hyes|Hno]; [left|right];
    (split; [done|]).
  - specialize (Hin Hyes). congruence.
  - specialize (Hout Hno). congruence.
Qed.

Lemma credited_parent_of won c h h' a :
  parents_below h -> credited won c h h' ->
  parent_of h' a = parent_of h a.
Proof.
  intros Hb Hcr. unfold parent_of at 1.
  destruct (h' !! a) as [n'|] eqn:Hn'; simpl.
  - destruct (credited_lookup _ _ _ _ _ _ Hb Hcr Hn')
      as (n & Hn & [[_ ->]|[_ ->]]); unfold parent_of; by rewrite Hn.
  - unfold parent_of. rewrite lookup_ge_None_2; [done|].
    destruct Hcr as [<- _]. by apply lookup_ge_None_1.
Qed.

(** In a search arena every path ends at the root. *)
Lemma on_path_root fresh h a :
  wf_except fresh h -> (a < length h)%nat -> on_path h a 0%nat.
Proof.
  intros Hwf Ha.
  destruct (on_path_top h a (wf_below _ _ Hwf) Ha) as (r & Hr & Hnone & Hlt).
  destruct (lookup_lt_is_Some_2 h r Hlt) as [n Hn].
  unfold parent_of in Hnone. rewrite Hn in Hnone. simpl in Hnone.
  by rewrite (wf_orphan _ _ Hwf _ _ Hn Hnone) in Hr.
Qed.

(** Backpropagation from the one node that may be unvisited restores the
    invariant. *)
Lemma credited_wf won c h h' :
  wf_except c h -> (c < length h)%nat -> credited won c h h' -> wf h'.
Proof.
  intros Hwf Hc Hcr. pose proof (wf_below _ _ Hwf) as Hb.
  pose proof (fun a => credited_parent_of won c h h' a Hb Hcr) as Hpar.
  pose proof (credited_lookup won c h h') as Hlk.
  split.
  - rewrite Hpar. destruct Hcr as [-> _]. apply (wf_root _ _ Hwf).
  - intros a p. rewrite Hpar. apply Hb.
  - intros a n' Hn' Hnone.
    destruct (Hlk _ _ Hb Hcr Hn') as (n & Hn & [[_ ->]|[_ ->]]);
      by eapply (wf_orphan _ _ Hwf).
  - intros a n' k c0 Hn' Hc0. rewrite Hpar.
    destruct (Hlk _ _ Hb Hcr Hn') as (n & Hn & [[_ ->]|[_ ->]]);
      by eapply (wf_child _ _ Hwf).
  - intros a n' Hn'.
    destruct (Hlk _ _ Hb Hcr Hn') as (n & Hn & [[_ ->]|[_ ->]]);
      pose proof (wf_stats _ _ Hwf _ _ Hn); [|done].
    unfold credit; simpl. destruct won; lia.
  - intros a n' p pn' Hn' Hp Hpn'.
    destruct (Hlk _ _ Hb Hcr Hn') as (n & Hn & Hcase).
    destruct (Hlk _ _ Hb Hcr Hpn') as (pn & Hpn & Hpcase).
    assert (Hp0 : parent n = Some p)
      by (destruct Hcase as [[_ ->]|[_ ->]]; done).
    pose proof (wf_mono _ _ Hwf _ _ _ _ Hn Hp0 Hpn).
    destruct Hcase as [[Hon ->]|[_ ->]];
      destruct Hpcase as [[Hpon ->]|[Hpoff ->]]; simpl; try lia.
    exfalso. apply Hpoff. eapply on_path_trans; [exact Hon|].
    eapply on_path_up; [|constructor]. apply parent_of_Some. eauto.
  - intros a n' Hn' Ha _.
    destruct (Hlk _ _ Hb Hcr Hn') as (n & Hn & Hcase).
    pose proof (wf_stats _ _ Hwf _ _ Hn).
    destruct (decide (a = c)) as [->|Hne].
    + destruct Hcase as [[_ ->]|[Hoff _]]; [simpl; lia|].
      exfalso. apply Hoff. constructor.
    + pose proof (wf_seen _ _ Hwf _ _ Hn Ha Hne).
      destruct Hcase as [[_ ->]|[_ ->]]; simpl; lia.
Qed.

Lemma wf_initial (acts : list Action) : wf [new_node None None acts].
Proof.
  split.
  - split; [done|simpl; lia].
  - intros [|a] p; [done|]. unfold parent_of. by destruct a.
  - intros [|a] n Hn _; [done|]. by destruct a.
  - intros [|[|a]] n k c Hn Hc; try done.
    injection Hn as <-. by apply elem_of_nil in Hc.
  - intros [|[|a]] n Hn; try done. injection Hn as <-. simpl. lia.
  - intros [|[|a]] n p pn Hn Hp; try done. by injection Hn as <-.
  - intros [|[|a]] n Hn Ha; done.
Qed.

End Credit.

Section Loop.
Context {Action State : Type} `{Countable Action}.
Variable board : Board Action State.
Variable rnd : nat -> nat.
Variable simulate :
  nat -> option State -> Z -> nat -> gmap Action Action ->
  result (bool * nat * gmap Action Action).

(** One pass keeps the invariant and visits the root once. *)
Lemma iteration_spec fuel s0 id w w' :
  wf (nodes w) ->
  iteration board rnd simulate fuel s0 id w = Ok w' ->
  wf (nodes w') /\
  exists v, root_visits w = Some v /\ root_visits w' = Some (v + 1).
Proof.
  intros Hwf Hrun. unfold iteration in Hrun.
  apply bind_Ok in Hrun as ([nd st] & Htr & Hrun).
  apply bind_Ok in Hrun as ([[[nd1 st1] h1] k1] & Hex & Hrun).
  apply bind_Ok in Hrun as ([[win k2] t2] & Hsim & Hrun).
  apply bind_Ok in Hrun as (h2 & Hbp & Hrun). injection Hrun as <-.
  simpl.
  apply (expand_leaf_wf _ _ _ _ _ _ _ _ _ _ Hwf) in Hex
    as (Hwf1 & Hnd1 & Hkeep).
  destruct (backpropagate_run fuel h1 nd1 win (wf_below _ _ Hwf1) Hnd1)
    as [(h' & Hrun' & Hcr)|[Hstuck _]]; [|congruence].
  assert (h' = h2) by congruence. subst h'.
  split; [by eapply credited_wf|].
  destruct (wf_root _ _ Hwf) as [_ Hlen].
  destruct (lookup_lt_is_Some_2 _ _ Hlen) as [r Hr].
  destruct (Hkeep _ _ Hr) as (r1 & Hr1 & _ & Hv1).
  destruct Hcr as [_ Hcr]. destruct (Hcr _ _ Hr1) as [Hon _].
  exists (visits r). unfold root_visits. simpl. rewrite Hr, Hon.
  - simpl. by rewrite Hv1.
  - by eapply on_path_root.
Qed.

(** One pass raises only what the adapter, [random.choice] or the
    simulation raise. *)
Lemma iteration_Raise fuel s0 id w e :
  wf (nodes w) ->
  iteration board rnd simulate fuel s0 id w = Raise e ->
  e = TypeError \/ e = IndexError \/
  exists fuel' st k t, simulate fuel' st id k t = Raise e.
Proof.
  intros Hwf Hrun. unfold iteration in Hrun.
  apply bind_Raise in Hrun as [Hr|([nd st] & Htr & Hrun)];
    [left; by eapply traverse_Raise|].
  apply bind_Raise in Hrun as [Hr|([[[nd1 st1] h1] k1] & Hex & Hrun)].
  { apply expand_leaf_Raise in Hr as [->| ->]; auto. }
  apply bind_Raise in Hrun as [Hr|([[win k2] t2] & Hsim & Hrun)];
    [right; right; eauto|].
  apply bind_Raise in Hrun as [Hr|(h2 & Hbp & Hrun)]; [|discriminate].
  apply (expand_leaf_wf _ _ _ _ _ _ _ _ _ _ Hwf) in Hex as (Hwf1 & Hnd1 & _).
  destruct (backpropagate_run fuel h1 nd1 win (wf_below _ _ Hwf1) Hnd1)
    as [(h' & Hrun' & _)|[Hstuck _]]; congruence.
Qed.

Lemma iterations_spec n fuel s0 id w w' :
  wf (nodes w) ->
  iterations board rnd simulate n fuel s0 id w = Ok w' ->
  wf (nodes w') /\
  exists v, root_visits w = Some v /\ root_visits w' = Some (v + Z.of_nat n).
Proof.
  revert w. induction n as [|n IH]; intros w Hwf Hrun.
  - injection Hrun as <-. split; [done|].
    destruct (wf_root _ _ Hwf) as [_ Hlen].
    destruct (lookup_lt_is_Some_2 _ _ Hlen) as [r Hr].
    exists (visits r). unfold root_visits. rewrite Hr. simpl.
    split; [done|]. f_equal. lia.
  - simpl in Hrun. apply bind_Ok in Hrun as (w1 & Hstep & Hrun).
    apply iteration_spec in Hstep as (Hwf1 & v & Hv & Hv1); [|done].
    apply IH in Hrun as (Hwf' & v' & Hv' & Hv''); [|done].
    split; [done|]. exists v. split; [done|].
    rewrite Hv''. f_equal. assert (v' = v + 1) by congruence. lia.
Qed.

Lemma iterations_Raise n fuel s0 id w e :
  wf (nodes w) ->
  iterations board rnd simulate n fuel s0 id w = Raise e ->
  e = TypeError \/ e = IndexError \/
  exists fuel' st k t, simulate fuel' st id k t = Raise e.
Proof.
  revert w. induction n as [|n IH]; intros w Hwf Hrun; [discriminate|].
  simpl in Hrun. apply bind_Raise in Hrun as [Hr|(w1 & Hstep & Hrun)].
  - by eapply iteration_Raise.
  - apply iteration_spec in Hstep as (Hwf1 & _); [|done]. by eapply IH.
Qed.

(** The loop of [think]: the arena stays well formed and the root is
    visited once per pass. *)
Lemma search_spec n fuel s0 k t w :
  search board rnd simulate n fuel s0 k t = Ok w ->
  wf (nodes w) /\ root_visits w = Some (Z.of_nat n).
Proof.
  unfold search. intros Hrun.
  apply iterations_spec in Hrun as (Hwf & v & Hv & Hv'); [|apply wf_initial].
  split; [done|]. rewrite Hv'. injection Hv as <-. simpl. f_equal.
Qed.

Lemma search_Raise n fuel s0 k t e :
  search board rnd simulate n fuel s0 k t = Raise e ->
  e = TypeError \/ e = IndexError \/
  exists fuel' st id k' t', simulate fuel' st id k' t' = Raise e.
Proof.
  unfold search. intros Hrun.
  apply iterations_Raise in Hrun as [?|[?|(f & st & k' & t' & ?)]];
    [auto|auto| |apply wf_initial].
  right; right. eauto 7.
Qed.

End Loop.

(** ** Rollouts *)

Section Rollouts.
Context {Action State : Type} `{Countable Action}.
Variable board : Board Action State.
Variable rnd : nat -> nat.

Lemma is_win_Raise state id e :
  is_win board state id = Raise e ->
  e = TypeError \/ e = AssertionError \/ e = KeyError.
Proof.
  unfold is_win. destruct state as [s|]; simpl; [|intros [= <-]; auto].
  destruct (points_values board s) as [o|]; [|intros [= <-]; auto].
  destruct (o !! id); [discriminate|intros [= <-]; auto].
Qed.

(** Scoring a state that has no outcome trips the assertion. *)
Lemma is_win_no_outcome s id :
  points_values board s = None ->
  is_win board (Some s) id = Raise AssertionError.
Proof. unfold is_win. simpl. by intros ->. Qed.

(** The vanilla rollout returns a game state: a terminal one, or one it
    stopped at because an action of it has no next state. *)
Lemma vanilla_rollout_Ok fuel s k state' k' :
  Vanilla.rollout board rnd fuel (Some s) k = Ok (state', k') ->
  exists s', state' = Some s' /\
    (is_ended board s' = true \/
     (is_ended board s' = false /\
      exists a, a ∈ legal_actions board s' /\ next_state board s' a = None)).
Proof.
  revert s k. induction fuel as [|fuel IH]; intros s k Hrun; [discriminate|].
  simpl in Hrun. destruct (is_ended board s) eqn:Hend.
  { injection Hrun as <- <-. eauto. }
  apply bind_Ok in Hrun as ([a k1] & Hch & Hrun).
  destruct (next_state board s a) as [s1|] eqn:Hnext.
  - by eapply IH.
  - injection Hrun as <- <-. exists s. split; [done|]. right.
    split; [done|]. exists a. split; [by eapply choice_elem|done].
Qed.

Lemma vanilla_rollout_Raise fuel state k e :
  Vanilla.rollout board rnd fuel state k = Raise e ->
  e = TypeError \/ e = IndexError.
Proof.
  revert state k. induction fuel as [|fuel IH]; intros state k Hrun;
    [discriminate|].
  simpl in Hrun.
  apply bind_Raise in Hrun as [Hr|(s & _ & Hrun)];
    [left; by eapply the_state_Raise|].
  destruct (is_ended board s); [discriminate|].
  apply bind_Raise in Hrun as [Hr|([a k1] & _ & Hrun)];
    [right; by eapply choice_Raise|].
  destruct (next_state board s a); [by eapply IH|discriminate].
Qed.

Lemma vanilla_simulate_Raise fuel state id k t e :
  Vanilla.simulate board rnd fuel state id k t = Raise e -> outside_ucb e.
Proof.
  unfold Vanilla.simulate, outside_ucb. intros Hrun.
  apply bind_Raise in Hrun as [Hr|([st k1] & _ & Hrun)].
  { apply vanilla_rollout_Raise in Hr as [->| ->]; auto. }
  apply bind_Raise in Hrun as [Hr|(win & _ & Hrun)]; [|discriminate].
  apply is_win_Raise in Hr as [->|[->| ->]]; auto.
Qed.

Lemma pick_action_elem t prev s k a k' :
  Modified.pick_action board rnd t prev s k = Ok (a, k') ->
  a ∈ legal_actions board s.
Proof.
  unfold Modified.pick_action.
  destruct (prev ≫= _) as [reply|]; [|by apply choice_elem].
  case_bool_decide; [by intros [= <- <-]|by apply choice_elem].
Qed.

Lemma pick_action_Raise t prev s k e :
  Modified.pick_action board rnd t prev s k = Raise e -> e = IndexError.
Proof.
  unfold Modified.pick_action.
  destruct (prev ≫= _) as [reply|]; [|by apply choice_Raise].
  case_bool_decide; [discriminate|by apply choice_Raise].
Qed.

(** The playout extends its history by a replay of the moves it makes. *)
Lemma playout_replay fuel t s acc prev k state' hist k' :
  Modified.playout board rnd fuel t (Some s) acc prev k
    = Ok (state', hist, k') ->
  exists s' new, state' = Some s' /\ hist = acc ++ new /\
    replay board s new s'.
Proof.
  revert s acc prev k. induction fuel as [|fuel IH]; intros s acc prev k Hrun;
    [discriminate|].
  simpl in Hrun. destruct (is_ended board s) eqn:Hend.
  { injection Hrun as <- <- <-. exists s, []. rewrite app_nil_r.
    repeat split. constructor. }
  apply bind_Ok in Hrun as ([a k1] & Hpick & Hrun).
  destruct (next_state board s a) as [s1|] eqn:Hnext.
  - apply IH in Hrun as (s' & new & -> & -> & Hplay).
    exists s', ((a, current_player board s1) :: new).
    split; [done|]. split; [by rewrite <- app_assoc|].
    econstructor; eauto using pick_action_elem.
  - injection Hrun as <- <- <-. exists s, []. rewrite app_nil_r.
    repeat split. constructor.
Qed.

Lemma replay_entry s hist s' a m :
  replay board s hist s' -> (a, m) ∈ hist ->
  exists s1 s2, is_ended board s1 = false /\ a ∈ legal_actions board s1 /\
    next_state board s1 a = Some s2 /\ m = current_player board s2.
Proof.
  induction 1 as [|s a0 s1 hist s' Hend Hleg Hnext _ IH];
    [by intros ?%elem_of_nil|].
  intros [[= -> ->]|Hin]%elem_of_cons; [by exists s, s1|by apply IH].
Qed.

Lemma playout_Raise fuel t state acc prev k e :
  Modified.playout board rnd fuel t state acc prev k = Raise e ->
  e = TypeError \/ e = IndexError.
Proof.
  revert state acc prev k.
  induction fuel as [|fuel IH]; intros state acc prev k Hrun; [discriminate|].
  simpl in Hrun.
  apply bind_Raise in Hrun as [Hr|(s & _ & Hrun)];
    [left; by eapply the_state_Raise|].
  destruct (is_ended board s); [discriminate|].
  apply bind_Raise in Hrun as [Hr|([a k1] & _ & Hrun)];
    [right; by eapply pick_action_Raise|].
  destruct (next_state board s a); [by eapply IH|discriminate].
Qed.

Lemma modified_simulate_Raise fuel state id k t e :
  Modified.simulate board rnd fuel state id k t = Raise e -> outside_ucb e.
Proof.
  unfold Modified.simulate, Modified.rollout, outside_ucb. intros Hrun.
  apply bind_Raise in Hrun as [Hr|([[[st win] k1] t1] & _ & Hrun)];
    [|discriminate].
  apply bind_Raise in Hr as [Hr|([[st hist] k1] & _ & Hr)].
  { apply playout_Raise in Hr as [->| ->]; auto. }
  apply bind_Raise in Hr as [Hr|(win & _ & Hr)]; [|discriminate].
  apply is_win_Raise in Hr as [->|[->| ->]]; auto.
Qed.

End Rollouts.
(** ** The three ways a traversal step goes *)

Section TraverseSteps.
Context {Action State : Type} `{Countable Action}.
Variable board : Board Action State.
Implicit Types h : list (MCTSNode Action).

Lemma traverse_stop fuel h nd n state id :
  h !! nd = Some n -> untried_actions n ≠ [] ->
  traverse_nodes board (S fuel) h nd state id = Ok (nd, state).
Proof.
  intros Hn Hu. simpl. unfold deref. rewrite Hn. simpl.
  by rewrite bool_decide_true.
Qed.

Lemma traverse_descend fuel h nd n state id v c cn :
  h !! nd = Some n -> untried_actions n = [] ->
  foldM (keep_best (child_score board h state id)) (0%R, None)
        (child_nodes n).*2 = Ok (v, Some c) ->
  h !! c = Some cn ->
  traverse_nodes board (S fuel) h nd state id
  = (best_state ← next_of board state (parent_action cn);
     traverse_nodes board fuel h c best_state id).
Proof.
  intros Hn%deref_Ok Hu Hsel Hc%deref_Ok. cbn [traverse_nodes].
  rewrite Hn. cbn [mbind result_bind].
  rewrite bool_decide_false by (intros ?; congruence).
  rewrite Hsel. cbn [mbind result_bind snd]. by rewrite Hc.
Qed.

Lemma traverse_leaf fuel h nd n state id :
  h !! nd = Some n -> untried_actions n = [] -> child_nodes n = [] ->
  traverse_nodes board (S fuel) h nd state id = Ok (nd, state).
Proof.
  intros Hn%deref_Ok Hu Hc. cbn [traverse_nodes].
  rewrite Hn. cbn [mbind result_bind].
  rewrite bool_decide_false by (intros ?; congruence).
  by rewrite Hc.
Qed.

End TraverseSteps.

(** ** The one-move game, run by hand *)

Section OneMove.
Variable simulate :
  nat -> option nat -> Z -> nat -> gmap nat nat ->
  result (bool * nat * gmap nat nat).

Lemma keep_best_first score c v :
  score c = Ok v -> (0 <= v)%R ->
  keep_best score (0%R, None) c = Ok (v, Some c).
Proof.
  intros Hs Hv. unfold keep_best. rewrite Hs. simpl.
  destruct (Rge_dec _ _); [done|lra].
Qed.

Lemma one_move_score k :
  1 <= k ->
  exists v, child_score one_move (one_move_nodes k) (Some 0%nat) 1 1%nat = Ok v
            /\ (0 <= v)%R.
Proof.
  intros Hk. unfold child_score. simpl.
  pose (n := mkNode (Some 0%nat) (Some 0%nat) [] ([] : list nat) k k).
  pose (pn := mkNode None None [(0%nat, 1%nat)] ([] : list nat) k k).
  assert (Hn : one_move_nodes k !! 1%nat = Some n) by done.
  assert (Hpn : one_move_nodes k !! 0%nat = Some pn) by done.
  assert (Hp : parent n = Some 0%nat) by done.
  assert (Hv : 0 < visits n) by (simpl; lia).
  assert (Hpv : 0 < visits pn) by (simpl; lia).
  assert (Hw : 0 <= wins n <= visits n) by (simpl; lia).
  eexists. split.
  - by apply (ucb_eval _ _ _ _ _ false Hn Hp Hpn).
  - eapply (ucb_nonneg _ _ _ _ _ false _ Hn Hp Hpn Hw Hv Hpv).
    by apply (ucb_eval _ _ _ _ _ false Hn Hp Hpn).
Qed.

Lemma one_move_traverse k :
  1 <= k ->
  traverse_nodes one_move 2 (one_move_nodes k) 0%nat (Some 0%nat) 1
  = Ok (1%nat, Some 1%nat).
Proof.
  intros Hk. destruct (one_move_score k Hk) as (v & Hv & Hpos).
  pose (n := mkNode (Some 0%nat) (Some 0%nat) [] ([] : list nat) k k).
  pose (pn := mkNode None None [(0%nat, 1%nat)] ([] : list nat) k k).
  rewrite (traverse_descend one_move 1 (one_move_nodes k) 0%nat pn
             (Some 0%nat) 1 v 1%nat n); try reflexivity.
  simpl. by rewrite (keep_best_first _ _ _ Hv Hpos).
Qed.

(** A pass on the arena of [k] passes gives the arena of [k + 1]. *)
Lemma one_move_iteration k d t :
  1 <= k ->
  simulate 2 (Some 1%nat) 1 d t = Ok (true, d, t) ->
  iteration one_move first_draw simulate 2 0%nat 1
    (mkWorld (one_move_nodes k) d t)
  = Ok (mkWorld (one_move_nodes (k + 1)) d t).
Proof.
  intros Hk Hsim. unfold iteration. simpl nodes.
  rewrite (one_move_traverse k Hk). simpl. by rewrite Hsim.
Qed.

Lemma one_move_first d t :
  simulate 2 (Some 1%nat) 1 (S d) t = Ok (true, S d, t) ->
  iteration one_move first_draw simulate 2 0%nat 1
    (mkWorld [new_node None None [0%nat]] d t)
  = Ok (mkWorld (one_move_nodes 1) (S d) t).
Proof.
  intros Hsim. unfold iteration. simpl. by rewrite Hsim.
Qed.

Lemma one_move_iterations n k d t :
  1 <= k ->
  (forall d, simulate 2 (Some 1%nat) 1 d t = Ok (true, d, t)) ->
  iterations one_move first_draw simulate n 2 0%nat 1
    (mkWorld (one_move_nodes k) d t)
  = Ok (mkWorld (one_move_nodes (k + Z.of_nat n)) d t).
Proof.
  intros Hk Hsim. revert k Hk. induction n as [|n IH]; intros k Hk.
  - simpl. by rewrite Z.add_0_r.
  - cbn [iterations]. rewrite one_move_iteration by done.
    cbn [mbind result_bind]. rewrite IH by lia. do 3 f_equal. lia.
Qed.

(** The whole loop on the one-move game, for any positive budget. *)
Lemma one_move_search n d t :
  (forall d, simulate 2 (Some 1%nat) 1 d t = Ok (true, d, t)) ->
  search one_move first_draw simulate (S n) 2 0%nat d t
  = Ok (mkWorld (one_move_nodes (Z.of_nat (S n))) (S d) t).
Proof.
  intros Hsim. unfold search. cbn [iterations].
  change (new_node None None (legal_actions one_move 0%nat))
    with (new_node None None [0%nat]).
  change (current_player one_move 0%nat) with 1.
  rewrite one_move_first by done. cbn [mbind result_bind].
  rewrite one_move_iterations by (done || lia). do 3 f_equal. lia.
Qed.

Lemma one_move_best k :
  1 <= k -> get_best_action (one_move_nodes k) 0%nat = Ok (Some 0%nat).
Proof.
  intros Hk. unfold get_best_action. simpl.
  rewrite (keep_best_first _ _ (IZR k / IZR k)%R).
  - done.
  - unfold win_rate. simpl. by rewrite bool_decide_false by lia.
  - apply win_ratio_unit; lia.
Qed.

End OneMove.

Lemma one_move_vanilla d (t : gmap nat nat) :
  Vanilla.simulate one_move first_draw 2 (Some 1%nat) 1 d t = Ok (true, d, t).
Proof. reflexivity. Qed.

Lemma one_move_modified d (t : gmap nat nat) :
  Modified.simulate one_move first_draw 2 (Some 1%nat) 1 d t = Ok (true, d, t).
Proof. reflexivity. Qed.

(** * The claims *)

(** C1 (witness): a losing last entry is dropped. *)
Lemma update_replies_pairs_witness :
  1 ≠ 2 /\
  update_replies 2 ([] ++ [(5%nat, 1)]) (∅ : gmap nat nat)
  = update_replies 2 [] (∅ : gmap nat nat).
Proof.
  split; [lia|].
  apply (proj1 (update_replies_pairs nat _ _ 2 ∅)). lia.
Defined.

(** C2: in the enhanced rollout every entry appended to the history pairs
    the action with the current player of the state reached by that action,
    that is the player to move next: the history is a replay of the playout
    in that form, and where the turn passes on a move the recorded player is
    not the one who made it. *)
Theorem history_records_next_player :
  forall (Action State : Type) (EqA : EqDecision Action) (CA : Countable Action)
         (board : Board Action State) (rnd : nat -> nat) fuel t s k
         state' hist k',
    Modified.playout board rnd fuel t (Some s) [] None k
      = Ok (state', hist, k') ->
    (exists s', state' = Some s' /\ replay board s hist s') /\
    forall a m, (a, m) ∈ hist ->
      exists s1 s2,
        is_ended board s1 = false /\ a ∈ legal_actions board s1 /\
        next_state board s1 a = Some s2 /\ m = current_player board s2 /\
        (current_player board s2 ≠ current_player board s1 ->
         m ≠ current_player board s1).
Proof.
  intros Action State EqA CA board rnd fuel t s k state' hist k' Hrun.
  apply playout_replay in Hrun as (s' & new & -> & -> & Hplay).
  simpl. split; [eauto|].
  intros a m Hin.
  destruct (replay_entry board _ _ _ _ _ Hplay Hin)
    as (s1 & s2 & ? & ? & ? & ->).
  exists s1, s2. repeat split; done.
Qed.

(** C2 (witness): the race to 4 from its start; player 1 makes the first
    move and the history records player 2 for it. *)
Lemma history_records_next_player_witness :
  Modified.playout race4 first_draw 10 ∅ (Some 0%nat) [] None 0
    = Ok (Some 4%nat, [(0%nat, 2); (1%nat, 1); (2%nat, 2); (3%nat, 1)], 4%nat)
  /\ exists s', replay race4 0%nat
                  [(0%nat, 2); (1%nat, 1); (2%nat, 2); (3%nat, 1)] s'.
Proof.
  assert (Hrun : Modified.playout race4 first_draw 10 ∅ (Some 0%nat) [] None 0
    = Ok (Some 4%nat, [(0%nat, 2); (1%nat, 1); (2%nat, 2); (3%nat, 1)], 4%nat))
    by (vm_compute; reflexivity).
  split; [exact Hrun|].
  destruct (history_records_next_player _ _ _ _ race4 first_draw
              _ _ _ _ _ _ _ Hrun) as [(s' & _ & Hplay) _].
  exists s'. exact Hplay.
Defined.

(** A rollout that stops at a dead end hands a state without outcome to
    [is_win], whose assertion then fails: on every adapter that gives no
    outcome for a state that is not terminal. *)
Lemma vanilla_dead_end_asserts {Action State} `{Countable Action}
    (board : Board Action State) (rnd : nat -> nat) fuel s k id t s' k' :
  (forall x, is_ended board x = false -> points_values board x = None) ->
  Vanilla.rollout board rnd fuel (Some s) k = Ok (Some s', k') ->
  is_ended board s' = false ->
  Vanilla.simulate board rnd fuel (Some s) id k t = Raise AssertionError.
Proof.
  intros Hcontract Hrun Hend. unfold Vanilla.simulate. rewrite Hrun. simpl.
  by rewrite is_win_no_outcome by auto.
Qed.

(** C3: on the game with a dead end the rollout does stop at the last state
    reached, without an error of its own; but scoring that state fails the
    assertion of [is_win], and the error ends the whole of [think], in both
    modules, during the first pass. *)
Theorem dead_end_aborts_think :
  Vanilla.rollout dead_end first_draw 5 (Some 1%nat) 1 = Ok (Some 1%nat, 2%nat)
  /\ Vanilla.think dead_end first_draw 5 0%nat 0 ∅ = Raise AssertionError
  /\ Modified.think dead_end first_draw 5 0%nat 0 ∅ = Raise AssertionError.
Proof. repeat split; vm_compute; reflexivity. Qed.

(** C4 (as amended): when the root has no children at the time the final
    action is extracted, [get_best_action] fails with the [AttributeError]
    of reading [parent_action] from [None], and so does [think]; no action
    is returned. *)
Theorem childless_root_fails :
  forall (Action State : Type) (EqA : EqDecision Action) (CA : Countable Action),
    (forall (h : list (MCTSNode Action)) root n,
        h !! root = Some n -> child_nodes n = [] ->
        get_best_action h root = Raise AttributeError) /\
    (forall (board : Board Action State) rnd simulate num_nodes fuel s0 k t w n,
        search board rnd simulate num_nodes fuel s0 k t = Ok w ->
        nodes w !! 0%nat = Some n -> child_nodes n = [] ->
        think_with board rnd simulate num_nodes fuel s0 k t
        = Raise AttributeError).
Proof.
  intros Action State EqA CA.
  assert (Hget : forall (h : list (MCTSNode Action)) root n,
             h !! root = Some n -> child_nodes n = [] ->
             get_best_action h root = Raise AttributeError).
  { intros h root n Hn Hc. unfold get_best_action, deref.
    rewrite Hn. simpl. by rewrite Hc. }
  split; [exact Hget|].
  intros board rnd simulate num_nodes fuel s0 k t w n Hrun Hn Hc.
  unfold think_with. rewrite Hrun. simpl. by rewrite (Hget _ _ _ Hn Hc).
Qed.

(** C4 (witness): the game that is over at its start. *)
Lemma childless_root_fails_witness :
  Vanilla.think finished first_draw 2 0%nat 0 ∅ = Raise AttributeError.
Proof.
  assert (Hrun : exists w,
    search finished first_draw (Vanilla.simulate finished first_draw)
      Vanilla.num_nodes 2 0%nat 0 ∅ = Ok w /\
    nodes w !! 0%nat = Some (mkNode None None [] [] 100 100)).
  { eexists. split; vm_compute; reflexivity. }
  destruct Hrun as (w & Hrun & Hroot).
  exact (proj2 (childless_root_fails nat nat _ _)
           finished first_draw _ _ _ _ _ _ w _ Hrun Hroot eq_refl).
Defined.

(** C4 (as stated) fails: the error on a childless root is not one that the
    source raises explicitly. *)
Lemma childless_root_error_is_implicit :
  ~ exists e,
      get_best_action [new_node None None ([] : list nat)] 0%nat = Raise e /\
      explicitly_raised e = true.
Proof. intros (e & He & Hx). vm_compute in He. by injection He as <-. Qed.

(** C5: during the loop of [think], [ucb] is never evaluated on a node
    without visits.  In neither module does the loop, stopped after any
    number of passes, raise the division, domain or attribute error of
    [ucb]; and after every completed pass each child in the tree has been
    visited at least once, so that [ucb] is defined on it: the child made by
    an expansion is credited by the backpropagation of the same pass. *)
Theorem ucb_only_reads_visited_nodes :
  forall (Action State : Type) (EqA : EqDecision Action) (CA : Countable Action)
         (board : Board Action State) (rnd : nat -> nat) fuel s0 k t,
    (forall n e,
        search board rnd (Vanilla.simulate board rnd) n fuel s0 k t = Raise e ->
        e ≠ ZeroDivisionError /\ e ≠ ValueError /\ e ≠ AttributeError) /\
    (forall n e,
        search board rnd (Modified.simulate board rnd) n fuel s0 k t = Raise e ->
        e ≠ ZeroDivisionError /\ e ≠ ValueError /\ e ≠ AttributeError) /\
    (forall simulate n w,
        search board rnd simulate n fuel s0 k t = Ok w ->
        forall a nd act c is_opponent,
          nodes w !! a = Some nd -> (act, c) ∈ child_nodes nd ->
          exists cn v, nodes w !! c = Some cn /\ 1 <= visits cn /\
                       ucb (nodes w) c is_opponent = Ok v).
Proof.
  intros Action State EqA CA board rnd fuel s0 k t.
  assert (Hout : forall e, outside_ucb e ->
            e ≠ ZeroDivisionError /\ e ≠ ValueError /\ e ≠ AttributeError).
  { intros e [->|[->|[->| ->]]]; repeat split; discriminate. }
  split; [|split].
  - intros n e Hrun. apply Hout.
    apply search_Raise in Hrun as [->|[->|(f & st & id & k' & t' & Hsim)]];
      [by left|right; by left|by eapply vanilla_simulate_Raise].
  - intros n e Hrun. apply Hout.
    apply search_Raise in Hrun as [->|[->|(f & st & id & k' & t' & Hsim)]];
      [by left|right; by left|by eapply modified_simulate_Raise].
  - intros simulate n w Hrun a nd act c opp Hnd Hc.
    apply search_spec in Hrun as [Hwf _].
    destruct (wf_child_seen _ _ _ _ _ Hwf Hnd Hc) as (cn & Hcn & _ & Hv & _).
    destruct (wf_ucb_defined _ _ _ _ _ opp Hwf Hnd Hc) as (v & Hucb & _).
    eauto.
Qed.

(** C5 (witness): three passes on the one-move game. *)
Lemma ucb_only_reads_visited_nodes_witness :
  exists cn v,
    one_move_nodes 3 !! 1%nat = Some cn /\ 1 <= visits cn /\
    ucb (one_move_nodes 3) 1%nat false = Ok v.
Proof.
  pose proof (one_move_search _ 2 0 ∅ (fun d => one_move_vanilla d ∅)) as Hrun.
  exact (proj2 (proj2 (ucb_only_reads_visited_nodes nat nat _ _
                         one_move first_draw 2 0%nat 0%nat ∅))
           _ _ _ Hrun 0%nat _ 0%nat 1%nat false eq_refl
           (list_elem_of_here _ _)).
Defined.

(** C7: one call of [backpropagate] on a leaf of an acyclic arena, given
    fuel beyond the index of the leaf, completes; the path from the leaf
    ends at a node without parent, the root; every node on that path gains
    exactly one visit, and exactly one win if and only if [won] is true, the
    same flag at every node; every other node keeps its statistics; and no
    node changes otherwise. *)
Theorem backpropagate_credits_the_path :
  forall (Action : Type) (h : list (MCTSNode Action)) leaf won fuel,
    parents_below h -> (leaf < length h)%nat -> (leaf < fuel)%nat ->
    exists h',
      backpropagate fuel h (Some leaf) won = Ok h' /\
      length h' = length h /\
      (exists root, on_path h leaf root /\ parent_of h root = None) /\
      forall a n, h !! a = Some n ->
        exists n', h' !! a = Some n' /\
          parent n' = parent n /\ parent_action n' = parent_action n /\
          child_nodes n' = child_nodes n /\
          untried_actions n' = untried_actions n /\
          (on_path h leaf a ->
             visits n' = visits n + 1 /\
             wins n' = wins n + (if won then 1 else 0)) /\
          (~ on_path h leaf a -> visits n' = visits n /\ wins n' = wins n).
Proof.
  intros Action h leaf won fuel Hb Hleaf Hfuel.
  destruct (backpropagate_total fuel h leaf won Hb Hleaf Hfuel)
    as (h' & Hrun & Hlen & Hcr).
  exists h'. split; [done|]. split; [done|]. split.
  { destruct (on_path_top h leaf Hb Hleaf) as (r & ? & ? & _). eauto. }
  intros a n Hn. destruct (Hcr a n Hn) as [Hin Hout].
  destruct (on_path_dec h leaf a Hb) as [Hyes|Hno].
  - exists (credit won n). split; [auto|]. repeat split; try done.
    simpl. destruct won; lia.
  - exists n. split; [auto|]. repeat split; done.
Qed.

(** C7 (witness): from the grandchild of the small tree. *)
Lemma backpropagate_credits_the_path_witness :
  exists h', backpropagate 3 family (Some 2%nat) true = Ok h' /\
             length h' = 4%nat.
Proof.
  assert (Hb : parents_below family).
  { intros a p. unfold parent_of.
    destruct a as [|[|[|[|a]]]]; simpl; intros [= <-]; lia. }
  destruct (backpropagate_credits_the_path nat family 2%nat true 3 Hb
              ltac:(simpl; lia) ltac:(lia)) as (h' & Hrun & Hlen & _).
  exists h'. split; [exact Hrun|exact Hlen].
Defined.

(** C9: the budget is 100 passes in the vanilla module and 900 in the
    enhanced one; every pass credits the root once, so after any number of
    completed passes the root has that many visits, and when [think]
    returns the root has as many visits as the budget. *)
Theorem root_visits_equal_the_budget :
  forall (Action State : Type) (EqA : EqDecision Action) (CA : Countable Action)
         (board : Board Action State) (rnd : nat -> nat) fuel s0 k t,
    (Vanilla.num_nodes = 100%nat /\ Modified.num_nodes = 900%nat) /\
    (forall simulate n w,
        search board rnd simulate n fuel s0 k t = Ok w ->
        root_visits w = Some (Z.of_nat n)) /\
    (forall a w,
        Vanilla.think board rnd fuel s0 k t = Ok (a, w) ->
        root_visits w = Some 100) /\
    (forall a w,
        Modified.think board rnd fuel s0 k t = Ok (a, w) ->
        root_visits w = Some 900).
Proof.
  intros Action State EqA CA board rnd fuel s0 k t.
  split; [done|]. split; [|split].
  - intros simulate n w Hrun. by apply search_spec in Hrun as [_ ?].
  - intros a w Hrun. unfold Vanilla.think, think_with in Hrun.
    apply bind_Ok in Hrun as (w' & Hsearch & Hrun).
    apply bind_Ok in Hrun as (a' & _ & Hrun). injection Hrun as <- <-.
    by apply search_spec in Hsearch as [_ ?].
  - intros a w Hrun. unfold Modified.think, think_with in Hrun.
    apply bind_Ok in Hrun as (w' & Hsearch & Hrun).
    apply bind_Ok in Hrun as (a' & _ & Hrun). injection Hrun as <- <-.
    by apply search_spec in Hsearch as [_ ?].
Qed.

(** [think] on the one-move game, in both modules. *)
Lemma one_move_think_vanilla :
  Vanilla.think one_move first_draw 2 0%nat 0 ∅
  = Ok (Some 0%nat, mkWorld (one_move_nodes 100) 1 ∅).
Proof.
  unfold Vanilla.think, think_with, Vanilla.num_nodes.
  rewrite (one_move_search _ 99 0 ∅ (fun d => one_move_vanilla d ∅)).
  cbn [mbind result_bind nodes].
  by rewrite one_move_best by lia.
Qed.

Lemma one_move_think_modified :
  Modified.think one_move first_draw 2 0%nat 0 ∅
  = Ok (Some 0%nat, mkWorld (one_move_nodes 900) 1 ∅).
Proof.
  unfold Modified.think, think_with, Modified.num_nodes.
  rewrite (one_move_search _ 899 0 ∅ (fun d => one_move_modified d ∅)).
  cbn [mbind result_bind nodes].
  by rewrite one_move_best by lia.
Qed.

(** C9 (witness): the one-move game, in both modules. *)
Lemma root_visits_equal_the_budget_witness :
  root_visits (mkWorld (one_move_nodes 100) 1 (∅ : gmap nat nat)) = Some 100 /\
  root_visits (mkWorld (one_move_nodes 900) 1 (∅ : gmap nat nat)) = Some 900.
Proof.
  pose proof (root_visits_equal_the_budget nat nat _ _ one_move first_draw
                2 0%nat 0%nat ∅) as (_ & _ & Hv & Hm).
  split.
  - exact (Hv _ _ one_move_think_vanilla).
  - exact (Hm _ _ one_move_think_modified).
Defined.

(** C10: [wins <= visits] holds for every node at all times.  A new node
    has zero statistics; expansion and every backpropagation keep the
    bound; so after any number of passes of the loop of [think] every node
    has [0 <= wins <= visits], and its win rate, when it has visits, lies
    between 0 and 1. *)
Theorem wins_never_exceed_visits :
  forall (Action State : Type) (EqA : EqDecision Action) (CA : Countable Action)
         (board : Board Action State) (rnd : nat -> nat),
    (forall p a acts,
        wins (new_node (Action:=Action) p a acts) = 0 /\
        visits (new_node p a acts) = 0) /\
    (forall h k nd state nd' state' h' k',
        wf h ->
        expand_leaf board rnd h k nd state = Ok (nd', state', h', k') ->
        forall a n, h' !! a = Some n -> 0 <= wins n <= visits n) /\
    (forall fuel (h : list (MCTSNode Action)) nd won h',
        (forall a n, h !! a = Some n -> 0 <= wins n <= visits n) ->
        backpropagate fuel h nd won = Ok h' ->
        forall a n, h' !! a = Some n -> 0 <= wins n <= visits n) /\
    (forall simulate n fuel s0 k t w,
        search board rnd simulate n fuel s0 k t = Ok w ->
        forall a nd, nodes w !! a = Some nd ->
          0 <= wins nd <= visits nd /\
          (0 < visits nd ->
           (0 <= IZR (wins nd) / IZR (visits nd) <= 1)%R)).
Proof.
  intros Action State EqA CA board rnd. split; [done|]. split; [|split].
  - intros h k nd state nd' state' h' k' Hwf Hrun a n Hn.
    apply (expand_leaf_wf _ _ _ _ _ _ _ _ _ _ Hwf) in Hrun as (Hwf' & _).
    by eapply (wf_stats _ _ Hwf').
  - intros fuel h nd won h' Hst Hrun. by eapply backpropagate_stats.
  - intros simulate n fuel s0 k t w Hrun a nd Hnd.
    apply search_spec in Hrun as [Hwf _].
    pose proof (wf_stats _ _ Hwf _ _ Hnd) as Hst.
    split; [done|]. intros Hv. by apply win_ratio_unit.
Qed.

(** C10 (witness): the child of the one-move game after five passes. *)
Lemma wins_never_exceed_visits_witness :
  0 <= 5 <= 5 /\ (0 <= IZR 5 / IZR 5 <= 1)%R.
Proof.
  pose proof (one_move_search _ 4 0 ∅ (fun d => one_move_vanilla d ∅)) as Hrun.
  destruct (proj2 (proj2 (proj2 (wins_never_exceed_visits nat nat _ _
                                   one_move first_draw)))
              _ _ _ _ _ _ _ Hrun 1%nat _ eq_refl) as [Hst Hrate].
  split; [exact Hst|]. apply Hrate. simpl. lia.
Defined.

(** * Further properties of the two modules *)

(** ** The table update, lines 101-108 of [mcts_modified.py] *)

Section ReplyTableMore.
Context {Action : Type} `{Countable Action}.
Implicit Types t : gmap Action Action.

(** An entry found after the walk was there before, or comes from two
    neighbouring entries of the stack, the upper one being the winner's. *)
Lemma unwind_lookup w :
  forall n stack t k v, (length stack <= n)%nat ->
    unwind w stack t !! k = Some v ->
    t !! k = Some v \/
    exists l1 m1 l2, stack = l1 ++ (v, w) :: (k, m1) :: l2.
Proof.
  induction n as [|n IH]; intros stack t k v Hlen Hlk.
  { destruct stack; [by left|simpl in Hlen; lia]. }
  destruct stack as [|[a m] rest]; [by left|]. simpl in Hlen, Hlk.
  case_bool_decide as Hm; simpl in Hm.
  - apply IH in Hlk as [?|(l1 & m1 & l2 & ->)]; [by left| |lia].
    right. by exists ((a, m) :: l1), m1, l2.
  - assert (m = w) as -> by (by destruct (decide (m = w))).
    destruct rest as [|[pa pm] rest']; [by left|]. simpl in Hlen, Hlk.
    apply IH in Hlk as [Hlk|(l1 & m1 & l2 & ->)]; [| |lia].
    + destruct (decide (pa = k)) as [->|Hne].
      * rewrite lookup_insert_eq in Hlk. injection Hlk as ->.
        right. by exists [], pm, rest'.
      * rewrite lookup_insert_ne in Hlk by done. by left.
    + right. by exists ((a, w) :: (pa, pm) :: l1), m1, l2.
Qed.

(** The walk deletes nothing. *)
Lemma unwind_keeps w :
  forall n stack t k, (length stack <= n)%nat ->
    is_Some (t !! k) -> is_Some (unwind w stack t !! k).
Proof.
  induction n as [|n IH]; intros stack t k Hlen Hk.
  { destruct stack; [done|simpl in Hlen; lia]. }
  destruct stack as [|[a m] rest]; [done|]. simpl in Hlen |- *.
  case_bool_decide; [apply IH; [lia|done]|].
  destruct rest as [|[pa pm] rest']; [done|]. simpl in Hlen.
  apply IH; [lia|].
  destruct (decide (pa = k)) as [->|Hne].
  - rewrite lookup_insert_eq. by eexists.
  - by rewrite lookup_insert_ne.
Qed.

Lemma unwind_no_winner w stack t :
  (forall a m, (a, m) ∈ stack -> m ≠ w) -> unwind w stack t = t.
Proof.
  induction stack as [|[a m] rest IH]; intros Hno; [done|]. simpl.
  rewrite bool_decide_true by (eapply Hno; left).
  apply IH. intros a' m' Hin. eapply Hno. by right.
Qed.

End ReplyTableMore.

(** X1: the table update writes only pairs of neighbouring history entries
    whose later entry carries the winner as mover: an entry [key -> value]
    of the updated table was in the table before, or the history holds
    [(key, _)] immediately followed by [(value, winner)]. *)
Theorem update_replies_writes_adjacent_pairs :
  forall (Action : Type) (EqA : EqDecision Action) (CA : Countable Action)
         (w : Z) (hist : list (Action * Z)) (t : gmap Action Action) k v,
    update_replies w hist t !! k = Some v ->
    t !! k = Some v \/
    exists h1 m1 h2, hist = h1 ++ (k, m1) :: (v, w) :: h2.
Proof.
  intros Action EqA CA w hist t k v Hlk. unfold update_replies in Hlk.
  apply (unwind_lookup w (length (rev hist))) in Hlk
    as [?|(l1 & m1 & l2 & Hst)]; [by left| |done].
  right. exists (rev l2), m1, (rev l1).
  rewrite <- (rev_involutive hist), Hst, rev_app_distr. simpl.
  by rewrite <- !app_assoc.
Qed.

(** X1 (witness) *)
Lemma update_replies_writes_adjacent_pairs_witness :
  (∅ : gmap nat nat) !! 3%nat = Some 4%nat \/
  exists h1 m1 h2,
    [(1%nat, 1); (2%nat, 2); (3%nat, 1); (4%nat, 2)]
    = h1 ++ (3%nat, m1) :: (4%nat, 2) :: h2.
Proof.
  apply (update_replies_writes_adjacent_pairs nat _ _ 2
           [(1%nat, 1); (2%nat, 2); (3%nat, 1); (4%nat, 2)] ∅).
  vm_compute. reflexivity.
Defined.

(** X2: the table update deletes no key: every key of the table is still a
    key after the update. *)
Theorem update_replies_keeps_keys :
  forall (Action : Type) (EqA : EqDecision Action) (CA : Countable Action)
         (w : Z) (hist : list (Action * Z)) (t : gmap Action Action) k,
    is_Some (t !! k) -> is_Some (update_replies w hist t !! k).
Proof.
  intros Action EqA CA w hist t k Hk. unfold update_replies.
  by apply (unwind_keeps w (length (rev hist))).
Qed.

(** X2 (witness) *)
Lemma update_replies_keeps_keys_witness :
  is_Some (update_replies 2 [(1%nat, 1); (9%nat, 2)]
             (<[9%nat := 9%nat]> ∅) !! 9%nat).
Proof.
  apply update_replies_keeps_keys. rewrite lookup_insert_eq. by eexists.
Defined.

(** X3: when no entry of the history carries the winner as mover, the
    update leaves the table as it is. *)
Theorem update_replies_without_winner :
  forall (Action : Type) (EqA : EqDecision Action) (CA : Countable Action)
         (w : Z) (hist : list (Action * Z)) (t : gmap Action Action),
    (forall a m, (a, m) ∈ hist -> m ≠ w) ->
    update_replies w hist t = t.
Proof.
  intros Action EqA CA w hist t Hno. unfold update_replies.
  apply unwind_no_winner. intros a m Hin. apply (Hno a m).
  apply list_elem_of_In. apply in_rev. by apply list_elem_of_In.
Qed.

(** X3 (witness) *)
Lemma update_replies_without_winner_witness :
  update_replies 2 [(1%nat, 1); (3%nat, 1)] (∅ : gmap nat nat) = ∅.
Proof.
  apply update_replies_without_winner.
  intros a m Hin Hm. subst m.
  apply elem_of_cons in Hin as [[=]|Hin].
  apply list_elem_of_singleton in Hin. discriminate.
Defined.

(** ** The two rollouts *)

Section RolloutsMore.
Context {Action State : Type} `{Countable Action}.
Variable board : Board Action State.
Variable rnd : nat -> nat.

Lemma choice_total {A} k (l : list A) :
  l ≠ [] -> exists x, choice rnd k l = Ok (x, S k) /\ x ∈ l.
Proof.
  intros Hne. unfold choice. destruct l as [|y l]; [done|].
  destruct (lookup_lt_is_Some_2 (y :: l) (rnd k mod length (y :: l))%nat)
    as [x Hx].
  { apply Nat.mod_upper_bound. simpl. lia. }
  rewrite Hx. exists x. split; [done|]. by eapply list_elem_of_lookup_2.
Qed.

Lemma choice_Raise_nil {A} k (l : list A) e :
  choice rnd k l = Raise e -> l = [].
Proof.
  intros Hr. destruct l as [|y l]; [done|].
  destruct (choice_total k (y :: l)) as (x & Hx & _); [done|congruence].
Qed.

Lemma choice_draws {A} k (l : list A) x k' :
  choice rnd k l = Ok (x, k') -> k' = S k.
Proof.
  unfold choice. destruct l; [discriminate|].
  destruct (_ !! _); [|discriminate]. by intros [= _ <-].
Qed.

Lemma replay_snoc s hist s1 a s2 :
  replay board s hist s1 ->
  is_ended board s1 = false -> a ∈ legal_actions board s1 ->
  next_state board s1 a = Some s2 ->
  replay board s (hist ++ [(a, current_player board s2)]) s2.
Proof.
  induction 1; intros Hend Hleg Hnext; simpl.
  - econstructor; eauto. constructor.
  - econstructor; eauto.
Qed.

(** The vanilla rollout from [s], when it returns, returns a state reached
    from [s] by legal moves. *)
Lemma vanilla_rollout_reaches fuel : forall s0 hist0 s k state' k',
  replay board s0 hist0 s ->
  Vanilla.rollout board rnd fuel (Some s) k = Ok (state', k') ->
  exists s' hist, state' = Some s' /\ replay board s0 hist s' /\ (k <= k')%nat.
Proof.
  induction fuel as [|fuel IH]; intros s0 hist0 s k state' k' Hplay Hrun;
    [discriminate|].
  simpl in Hrun. destruct (is_ended board s) eqn:Hend.
  { injection Hrun as <- <-. eauto. }
  apply bind_Ok in Hrun as ([a k1] & Hch & Hrun).
  pose proof (choice_draws _ _ _ _ Hch) as ->.
  destruct (next_state board s a) as [s1|] eqn:Hnext.
  - eapply IH in Hrun as (s' & hist & -> & Hplay' & Hle).
    + exists s', hist. repeat split; [done|lia].
    + eapply replay_snoc; eauto. by eapply choice_elem.
  - injection Hrun as <- <-. exists s, hist0. repeat split; [done|lia].
Qed.

(** From a game state the vanilla rollout raises only [IndexError], at a
    state reached by legal moves that is not terminal and has no legal
    action. *)
Lemma vanilla_rollout_Raise_at fuel : forall s0 hist0 s k e,
  replay board s0 hist0 s ->
  Vanilla.rollout board rnd fuel (Some s) k = Raise e ->
  e = IndexError /\
  exists s' hist, replay board s0 hist s' /\ is_ended board s' = false /\
                  legal_actions board s' = [].
Proof.
  induction fuel as [|fuel IH]; intros s0 hist0 s k e Hplay Hrun;
    [discriminate|].
  simpl in Hrun. destruct (is_ended board s) eqn:Hend; [discriminate|].
  apply bind_Raise in Hrun as [Hr|([a k1] & Hch & Hrun)].
  - split; [by eapply choice_Raise|].
    exists s, hist0. repeat split; [done..|]. by eapply choice_Raise_nil.
  - destruct (next_state board s a) as [s1|] eqn:Hnext; [|discriminate].
    eapply IH; [|exact Hrun].
    eapply replay_snoc; eauto. by eapply choice_elem.
Qed.

(** On a game in which every move lowers a measure and every state that is
    not terminal has a legal action, the vanilla rollout returns once its
    fuel exceeds the measure. *)
Lemma vanilla_rollout_total (mu : State -> nat) :
  (forall s a s', is_ended board s = false -> a ∈ legal_actions board s ->
     next_state board s a = Some s' -> (mu s' < mu s)%nat) ->
  (forall s, is_ended board s = false -> legal_actions board s ≠ []) ->
  forall fuel s k, (mu s < fuel)%nat ->
    exists state' k', Vanilla.rollout board rnd fuel (Some s) k
                      = Ok (state', k').
Proof.
  intros Hdown Hacts. induction fuel as [|fuel IH]; intros s k Hfuel; [lia|].
  simpl. destruct (is_ended board s) eqn:Hend; [by eauto|].
  destruct (choice_total k (legal_actions board s)) as (a & Hch & Hleg);
    [by auto|].
  rewrite Hch. simpl.
  destruct (next_state board s a) as [s1|] eqn:Hnext; [|by eauto].
  apply IH. specialize (Hdown _ _ _ Hend Hleg Hnext). lia.
Qed.

Lemma pick_action_total t prev s k :
  legal_actions board s ≠ [] ->
  exists a k', Modified.pick_action board rnd t prev s k = Ok (a, k') /\
               a ∈ legal_actions board s.
Proof.
  intros Hne. unfold Modified.pick_action.
  destruct (choice_total k (legal_actions board s) Hne) as (x & Hx & Hin).
  destruct (prev ≫= _) as [reply|]; [|by eauto].
  case_bool_decide; by eauto.
Qed.

Lemma playout_total (mu : State -> nat) :
  (forall s a s', is_ended board s = false -> a ∈ legal_actions board s ->
     next_state board s a = Some s' -> (mu s' < mu s)%nat) ->
  (forall s, is_ended board s = false -> legal_actions board s ≠ []) ->
  forall fuel t s acc prev k, (mu s < fuel)%nat ->
    exists state' hist k',
      Modified.playout board rnd fuel t (Some s) acc prev k
      = Ok (state', hist, k').
Proof.
  intros Hdown Hacts. induction fuel as [|fuel IH];
    intros t s acc prev k Hfuel; [lia|].
  simpl. destruct (is_ended board s) eqn:Hend; [by eauto|].
  destruct (pick_action_total t prev s k) as (a & k1 & Hpick & Hleg);
    [by auto|].
  rewrite Hpick. simpl.
  destruct (next_state board s a) as [s1|] eqn:Hnext; [|by eauto].
  apply IH. specialize (Hdown _ _ _ Hend Hleg Hnext). lia.
Qed.

(** With an empty reply table the playout of the enhanced module makes the
    moves of the vanilla rollout. *)
Lemma playout_empty_table fuel : forall state acc prev k,
  ('(state', _, k') ← Modified.playout board rnd fuel ∅ state acc prev k;
   Ok (state', k'))
  = Vanilla.rollout board rnd fuel state k.
Proof.
  induction fuel as [|fuel IH]; intros state acc prev k; [done|].
  simpl. destruct state as [s|]; [|done]. simpl.
  destruct (is_ended board s); [done|].
  assert (Hpick : Modified.pick_action board rnd ∅ prev s k
                  = choice rnd k (legal_actions board s)).
  { unfold Modified.pick_action. destruct prev as [p|]; [|done].
    simpl. by rewrite lookup_empty. }
  rewrite Hpick. destruct (choice rnd k (legal_actions board s))
    as [[a k1]| |]; [|done..].
  simpl. destruct (next_state board s a) as [s1|]; [|done]. apply IH.
Qed.

(** Two neighbouring entries of a replay are a move and the move made in
    the state it led to. *)
Lemma replay_adjacent h1 : forall s k m1 v m2 h2 s',
  replay board s (h1 ++ (k, m1) :: (v, m2) :: h2) s' ->
  exists s1 s2 s3,
    next_state board s1 k = Some s2 /\ next_state board s2 v = Some s3 /\
    m2 = current_player board s3.
Proof.
  induction h1 as [|x h1 IH]; intros s k m1 v m2 h2 s' Hplay; simpl in Hplay.
  - inversion Hplay as [|? ? sa ? ? _ _ Hn1 Hrest]; subst.
    inversion Hrest as [|? ? sb ? ? _ _ Hn2 _]; subst. by exists s, sa, sb.
  - inversion Hplay; subst. by eapply IH.
Qed.

End RolloutsMore.

(** X4: when the vanilla rollout returns from a game state, it returns a
    game state reached from it by legal moves, at which the game is over or
    at which some legal action has no next state (the [break]). *)
Theorem vanilla_rollout_result :
  forall (Action State : Type) (EqA : EqDecision Action) (CA : Countable Action)
         (board : Board Action State) (rnd : nat -> nat) fuel s k state' k',
    Vanilla.rollout board rnd fuel (Some s) k = Ok (state', k') ->
    exists s' hist,
      state' = Some s' /\ replay board s hist s' /\
      (is_ended board s' = true \/
       (is_ended board s' = false /\
        exists a, a ∈ legal_actions board s' /\ next_state board s' a = None)).
Proof.
  intros Action State EqA CA board rnd fuel s k state' k' Hrun.
  destruct (vanilla_rollout_reaches board rnd fuel s [] s k state' k'
              (replay_nil board s) Hrun) as (s' & hist & -> & Hplay & _).
  destruct (vanilla_rollout_Ok board rnd fuel s k _ _ Hrun)
    as (s'' & [= <-] & Hshape).
  by exists s', hist.
Qed.

(** X4 (witness): the race to 4 from its start ends at 4. *)
Lemma vanilla_rollout_result_witness :
  exists s' hist,
    Some 4%nat = Some s' /\ replay race4 0%nat hist s' /\
    (is_ended race4 s' = true \/
     (is_ended race4 s' = false /\
      exists a, a ∈ legal_actions race4 s' /\ next_state race4 s' a = None)).
Proof.
  apply (vanilla_rollout_result nat nat _ _ race4 first_draw 10 0%nat 0%nat
           (Some 4%nat) 4%nat).
  vm_compute. reflexivity.
Defined.

(** X5: from a game state the vanilla rollout raises nothing but the
    [IndexError] of [random.choice], and only after reaching, by legal
    moves, a state that is not terminal and has no legal action. *)
Theorem vanilla_rollout_raises_only_without_moves :
  forall (Action State : Type) (EqA : EqDecision Action) (CA : Countable Action)
         (board : Board Action State) (rnd : nat -> nat) fuel s k e,
    Vanilla.rollout board rnd fuel (Some s) k = Raise e ->
    e = IndexError /\
    exists s' hist, replay board s hist s' /\ is_ended board s' = false /\
                    legal_actions board s' = [].
Proof.
  intros Action State EqA CA board rnd fuel s k e Hrun.
  exact (vanilla_rollout_Raise_at board rnd fuel s [] s k e
           (replay_nil board s) Hrun).
Qed.

(** X5 (witness): the stuck game. *)
Lemma vanilla_rollout_raises_only_without_moves_witness :
  IndexError = IndexError /\
  exists s' hist, replay stalled 0%nat hist s' /\ is_ended stalled s' = false /\
                  legal_actions stalled s' = [].
Proof.
  apply (vanilla_rollout_raises_only_without_moves nat nat _ _ stalled
           first_draw 3 0%nat 0%nat IndexError).
  vm_compute. reflexivity.
Defined.

(** X6: on a game in which every legal move with a next state lowers a
    measure of the state, and every state that is not terminal has a legal
    action, both playout loops return as soon as the fuel exceeds the
    measure of the start: the vanilla rollout and the playout of the
    enhanced rollout, whatever the reply table holds. *)
Theorem rollouts_return_on_bounded_games :
  forall (Action State : Type) (EqA : EqDecision Action) (CA : Countable Action)
         (board : Board Action State) (rnd : nat -> nat) (mu : State -> nat),
    (forall s a s', is_ended board s = false -> a ∈ legal_actions board s ->
       next_state board s a = Some s' -> (mu s' < mu s)%nat) ->
    (forall s, is_ended board s = false -> legal_actions board s ≠ []) ->
    forall fuel s k, (mu s < fuel)%nat ->
      (exists state' k',
          Vanilla.rollout board rnd fuel (Some s) k = Ok (state', k')) /\
      (forall t acc prev, exists state' hist k',
          Modified.playout board rnd fuel t (Some s) acc prev k
          = Ok (state', hist, k')).
Proof.
  intros Action State EqA CA board rnd mu Hdown Hacts fuel s k Hfuel. split.
  - by eapply vanilla_rollout_total.
  - intros t acc prev. by eapply playout_total.
Qed.

Lemma race4_bounded :
  (forall s a s', is_ended race4 s = false -> a ∈ legal_actions race4 s ->
     next_state race4 s a = Some s' -> (race4_left s' < race4_left s)%nat) /\
  (forall s, is_ended race4 s = false -> legal_actions race4 s ≠ []).
Proof.
  split.
  - intros s a s' Hend _ Hnext. simpl in *.
    apply bool_decide_eq_false in Hend.
    destruct (decide (s < 4)%nat); [|lia]. injection Hnext as <-.
    unfold race4_left. lia.
  - intros s Hend. simpl in *. apply bool_decide_eq_false in Hend.
    destruct (decide (s < 4)%nat); [done|lia].
Qed.

(** X6 (witness): the race to 4, whose states count the moves left. *)
Lemma rollouts_return_on_bounded_games_witness :
  exists state' k',
    Vanilla.rollout race4 first_draw 5 (Some 0%nat) 0 = Ok (state', k').
Proof.
  exact (proj1 (rollouts_return_on_bounded_games nat nat _ _ race4 first_draw
                  race4_left (proj1 race4_bounded) (proj2 race4_bounded)
                  5%nat 0%nat 0%nat ltac:(vm_compute; lia))).
Defined.

(** X7: with an empty reply table the playout loop of the enhanced rollout
    is the vanilla rollout: same final state, same number of random draws,
    same exception, from any state and with any previous action. *)
Theorem playout_with_empty_table_is_vanilla :
  forall (Action State : Type) (EqA : EqDecision Action) (CA : Countable Action)
         (board : Board Action State) (rnd : nat -> nat) fuel state acc prev k,
    ('(state', _, k') ← Modified.playout board rnd fuel ∅ state acc prev k;
     Ok (state', k'))
    = Vanilla.rollout board rnd fuel state k.
Proof. intros. apply playout_empty_table. Qed.

(** Where the entries of an updated table come from. *)
Lemma update_replies_lookup {Action} `{Countable Action} (w : Z)
    (hist : list (Action * Z)) (t : gmap Action Action) k v :
  update_replies w hist t !! k = Some v ->
  t !! k = Some v \/
  exists h1 m1 h2, hist = h1 ++ (k, m1) :: (v, w) :: h2.
Proof.
  intros Hlk. unfold update_replies in Hlk.
  apply (unwind_lookup w (length (rev hist))) in Hlk
    as [?|(l1 & m1 & l2 & Hst)]; [by left| |done].
  right. exists (rev l2), m1, (rev l1).
  rewrite <- (rev_involutive hist), Hst, rev_app_distr. simpl.
  by rewrite <- !app_assoc.
Qed.

(** ** Backpropagation, expansion and the final selection *)

Section PhasesMore.
Context {Action State : Type} `{Countable Action}.
Variable board : Board Action State.
Variable rnd : nat -> nat.
Implicit Types h : list (MCTSNode Action).

(** Backpropagation keeps the size of the arena and, node by node, every
    field but the statistics, which do not go down. *)
Lemma backpropagate_shape fuel : forall h nd won h',
  backpropagate fuel h nd won = Ok h' ->
  length h' = length h /\
  forall a n', h' !! a = Some n' ->
    exists n, h !! a = Some n /\
      parent n' = parent n /\ parent_action n' = parent_action n /\
      child_nodes n' = child_nodes n /\
      untried_actions n' = untried_actions n /\
      visits n <= visits n' /\ wins n <= wins n'.
Proof.
  induction fuel as [|fuel IH]; intros h nd won h' Hrun.
  { destruct nd; [discriminate|]. injection Hrun as <-.
    split; [done|]. intros a n' Hn'. exists n'. repeat split; try done; lia. }
  destruct nd as [a0|]; simpl in Hrun.
  2:{ injection Hrun as <-. split; [done|].
      intros a n' Hn'. exists n'. repeat split; try done; lia. }
  apply bind_Ok in Hrun as (n0 & Hn0%deref_Ok & Hrun).
  apply IH in Hrun as [Hlen Hall]. rewrite length_insert in Hlen.
  split; [done|]. intros a n' Hn'.
  destruct (Hall a n' Hn') as (n1 & Hn1 & Hp & Hpa & Hc & Hu & Hv & Hw).
  destruct (decide (a0 = a)) as [->|Hne].
  - rewrite list_lookup_insert_eq in Hn1 by (by eapply lookup_lt_Some).
    injection Hn1 as <-. exists n0. simpl in *.
    repeat split; try done; destruct won; lia.
  - rewrite list_lookup_insert_ne in Hn1 by done. exists n1.
    repeat split; done.
Qed.

Lemma backpropagate_no_Raise fuel : forall h nd won e,
  backpropagate fuel h nd won ≠ Raise e.
Proof.
  induction fuel as [|fuel IH]; intros h nd won e Hrun.
  { by destruct nd. }
  destruct nd as [a0|]; simpl in Hrun; [|discriminate].
  apply bind_Raise in Hrun as [Hr|(n0 & _ & Hrun)];
    [by apply deref_Raise in Hr|by apply IH in Hrun].
Qed.

Lemma list_remove_perm (x : Action) l :
  x ∈ l -> l ≡ₚ x :: list_remove x l.
Proof.
  induction l as [|y l IH]; [by intros ?%elem_of_nil|].
  intros Hin. simpl. case_decide as Hy; [by subst|].
  apply elem_of_cons in Hin as [->|Hin]; [done|].
  rewrite (IH Hin) at 1. apply Permutation_swap.
Qed.

Lemma dict_update_new (k : Action) v d : (k, v) ∈ dict_update k v d.
Proof.
  induction d as [|kv d IH]; simpl; [left|].
  case_decide; [left|by right].
Qed.

Lemma dict_update_other (k : Action) v d k' v' :
  (k', v') ∈ d -> k' ≠ k -> (k', v') ∈ dict_update k v d.
Proof.
  induction d as [|kv d IH]; intros Hin Hne; [by apply elem_of_nil in Hin|].
  simpl. apply elem_of_cons in Hin as [<-|Hin].
  - simpl. rewrite decide_False by done. left.
  - case_decide; right; [done|by apply IH].
Qed.

Lemma dict_update_keys (k : Action) v d k' :
  k' ∈ (dict_update k v d).*1 <-> k' = k \/ k' ∈ d.*1.
Proof.
  clear board rnd. induction d as [|[k0 v0] d IH]; simpl.
  - rewrite list_elem_of_singleton. split; [by left|].
    by intros [?|?%elem_of_nil].
  - case_decide as Hk; simpl in *; rewrite !elem_of_cons.
    + subst. tauto.
    + rewrite IH. tauto.
Qed.

(** A dict has one entry per key, and an update keeps it so. *)
Lemma dict_update_NoDup (k : Action) v d :
  NoDup d.*1 -> NoDup (dict_update k v d).*1.
Proof.
  clear board rnd. induction d as [|[k0 v0] d IH]; simpl; intros Hnd.
  - apply NoDup_singleton.
  - apply NoDup_cons in Hnd as [Hnot Hnd].
    case_decide as Hk; simpl in *.
    + subst. by apply NoDup_cons.
    + apply NoDup_cons. split; [|by apply IH].
      rewrite dict_update_keys. intros [?|?]; [by subst|done].
Qed.

(** [get_best_action] stops at the first child without visits. *)
Lemma best_pick_unvisited h cs : forall best,
  (forall c, c ∈ cs -> is_Some (h !! c)) ->
  (exists c cn, c ∈ cs /\ h !! c = Some cn /\ visits cn = 0) ->
  foldM (keep_best (win_rate h)) best cs = Raise ZeroDivisionError.
Proof.
  induction cs as [|c cs IH]; intros best Hvalid (c0 & cn0 & Hin & Hcn0 & Hv0).
  { by apply elem_of_nil in Hin. }
  destruct (Hvalid c) as [cn Hcn]; [left|].
  destruct (decide (visits cn = 0)) as [Hv|Hv].
  - assert (Hk : keep_best (win_rate h) best c = Raise ZeroDivisionError).
    { unfold keep_best, win_rate, deref. rewrite Hcn. simpl.
      by rewrite bool_decide_true. }
    cbn [foldM]. by rewrite Hk.
  - assert (Hk : exists b', keep_best (win_rate h) best c = Ok b').
    { unfold keep_best, win_rate, deref. rewrite Hcn. simpl.
      rewrite bool_decide_false by done. simpl.
      destruct (Rge_dec _ _); eauto. }
    destruct Hk as [b' Hk]. cbn [foldM]. rewrite Hk. cbn [mbind result_bind].
    apply IH; [intros; apply Hvalid; by right|].
    apply elem_of_cons in Hin as [->|Hin]; [congruence|by eauto].
Qed.

End PhasesMore.

(** X10: [backpropagate] changes statistics only, on any arena: it raises
    no exception, and when it returns the arena has the same size and every
    node has the parent, parent action, children and untried actions it
    had, with visits and wins that did not go down. *)
Theorem backpropagate_changes_statistics_only :
  forall (Action : Type) fuel (h : list (MCTSNode Action)) nd won,
    (forall e, backpropagate fuel h nd won ≠ Raise e) /\
    (forall h', backpropagate fuel h nd won = Ok h' ->
       length h' = length h /\
       forall a n', h' !! a = Some n' ->
         exists n, h !! a = Some n /\
           parent n' = parent n /\ parent_action n' = parent_action n /\
           child_nodes n' = child_nodes n /\
           untried_actions n' = untried_actions n /\
           visits n <= visits n' /\ wins n <= wins n').
Proof.
  intros Action fuel h nd won. split.
  - intros e. apply backpropagate_no_Raise.
  - intros h'. apply backpropagate_shape.
Qed.

(** X10 (witness): from the grandchild of the small tree. *)
Lemma backpropagate_changes_statistics_only_witness :
  length [ mkNode None None [(0%nat, 1%nat); (1%nat, 3%nat)] ([] : list nat) 4 6;
           mkNode (Some 0%nat) (Some 0%nat) [(0%nat, 2%nat)] [] 3 4;
           mkNode (Some 1%nat) (Some 0%nat) [] [] 2 2;
           mkNode (Some 0%nat) (Some 1%nat) [] [] 0 1 ]
  = length family.
Proof.
  apply (proj2 (backpropagate_changes_statistics_only nat 3 family
                  (Some 2%nat) true)).
  vm_compute. reflexivity.
Defined.

(** X11: what an expansion does.  [expand_leaf] returns its arguments
    unchanged when the game is over at the state or the node has no untried
    action.  Otherwise it draws once; the action drawn was untried and is
    removed from the untried actions of the node exactly once; the node
    keeps its statistics and its other children, and its dict now maps the
    action to a new node, still with one entry per key; the new node is
    appended to the arena with the node as parent, the action as parent
    action, the legal actions of the next state as untried actions, no
    children and zero statistics; the state returned is the next state; no
    other node changes. *)
Theorem expand_leaf_result :
  forall (Action State : Type) (EqA : EqDecision Action) (CA : Countable Action)
         (board : Board Action State) (rnd : nat -> nat)
         (h : list (MCTSNode Action)) k nd state nd' state' h' k',
    expand_leaf board rnd h k nd state = Ok (nd', state', h', k') ->
    exists s n, state = Some s /\ h !! nd = Some n /\
      (((is_ended board s = true \/ untried_actions n = []) /\
        nd' = nd /\ state' = state /\ h' = h /\ k' = k)
       \/
       (is_ended board s = false /\
        exists act ns n',
          act ∈ untried_actions n /\ k' = S k /\
          next_state board s act = Some ns /\ state' = Some ns /\
          nd' = length h /\ length h' = S (length h) /\
          h' !! nd = Some n' /\
          untried_actions n ≡ₚ act :: untried_actions n' /\
          (act, length h) ∈ child_nodes n' /\
          (forall key c, (key, c) ∈ child_nodes n -> key ≠ act ->
             (key, c) ∈ child_nodes n') /\
          (NoDup (child_nodes n).*1 -> NoDup (child_nodes n').*1) /\
          parent n' = parent n /\ parent_action n' = parent_action n /\
          wins n' = wins n /\ visits n' = visits n /\
          h' !! length h
            = Some (mkNode (Some nd) (Some act) [] (legal_actions board ns) 0 0) /\
          forall a, a ≠ nd -> (a < length h)%nat -> h' !! a = h !! a)).
Proof.
  intros Action State EqA CA board rnd h k nd state nd' state' h' k' Hrun.
  pose proof Hrun as Hrun0. unfold expand_leaf in Hrun0.
  apply bind_Ok in Hrun0 as (s & Hs & Hrun0).
  apply bind_Ok in Hrun0 as (n & Hn%deref_Ok & Hrun0).
  destruct state as [s0|]; [|discriminate]. injection Hs as ->.
  exists s, n. split; [done|]. split; [done|].
  assert (Hnd : (nd < length h)%nat) by (by eapply lookup_lt_Some).
  destruct (negb (is_ended board s) && _) eqn:Hcond.
  - right. apply andb_prop in Hcond as [Hend _].
    apply negb_true_iff in Hend. split; [done|].
    apply bind_Ok in Hrun0 as ([act k1] & Hch & Hrun0).
    apply bind_Ok in Hrun0 as (ns & Hns & Hrun0).
    destruct (next_state board s act) as [ns'|] eqn:Hnext; [|discriminate].
    injection Hns as ->. injection Hrun0 as <- <- <- <-.
    pose proof (choice_elem rnd _ _ _ _ Hch) as Hact.
    pose proof (choice_draws rnd _ _ _ _ Hch) as ->.
    eexists act, ns, _. split; [done|]. split; [done|]. split; [done|].
    split; [done|]. split; [done|]. split.
    { rewrite length_app, length_insert. simpl. lia. }
    split.
    { rewrite lookup_app_l by (by rewrite length_insert).
      by rewrite list_lookup_insert_eq. }
    simpl. split; [by apply list_remove_perm|].
    split; [apply dict_update_new|].
    split; [intros; by apply dict_update_other|].
    split; [apply dict_update_NoDup|].
    do 4 (split; [done|]). split.
    { rewrite lookup_app_r by (rewrite length_insert; lia).
      by rewrite length_insert, Nat.sub_diag. }
    intros a Hne Hlt. rewrite lookup_app_l by (by rewrite length_insert).
    by rewrite list_lookup_insert_ne.
  - left. injection Hrun0 as <- <- <- <-. split; [|done].
    apply andb_false_iff in Hcond as [Hend|Hun].
    + left. by apply negb_false_iff in Hend.
    + right. apply bool_decide_eq_false in Hun.
      by destruct (untried_actions n); [|exfalso; apply Hun].
Qed.

(** X11 (witness): the first expansion in the one-move game. *)
Lemma expand_leaf_result_witness :
  exists s n, Some 0%nat = Some s /\
    [new_node None None [0%nat]] !! 0%nat = Some n /\
    is_ended one_move s = false.
Proof.
  assert (Hrun : expand_leaf one_move first_draw
                   [new_node None None [0%nat]] 0 0%nat (Some 0%nat)
                 = Ok (1%nat, Some 1%nat,
                       [ mkNode None None [(0%nat, 1%nat)] [] 0 0;
                         mkNode (Some 0%nat) (Some 0%nat) [] [] 0 0 ], 1%nat))
    by (vm_compute; reflexivity).
  destruct (expand_leaf_result nat nat _ _ one_move first_draw
              _ _ _ _ _ _ _ _ Hrun)
    as (s & n & Hs & Hn & [[_ (Hnd & _)]|[Hend _]]); [discriminate|].
  by exists s, n.
Defined.

(** ** The search loop, further *)

Section SearchMore.
Context {Action State : Type} `{Countable Action}.
Variable board : Board Action State.
Variable rnd : nat -> nat.
Variable simulate :
  nat -> option State -> Z -> nat -> gmap Action Action ->
  result (bool * nat * gmap Action Action).
Implicit Types h : list (MCTSNode Action).

Lemma select_picks_child score cs best v c :
  foldM (keep_best score) (best, None) cs = Ok (v, Some c) -> c ∈ cs.
Proof.
  intros Hsel.
  destruct (select_spec score cs _ _ _ _ Hsel)
    as (_ & _ & [(? & _)|(i & c' & [= <-] & Hi & _)]); [done|].
  by eapply list_elem_of_lookup_2.
Qed.

(** Traversal walks down child links, playing the parent actions. *)
Lemma traverse_descends fuel h : forall nd state id nd' state',
  traverse_nodes board fuel h nd state id = Ok (nd', state') ->
  descends board h nd state nd' state'.
Proof.
  induction fuel as [|fuel IH]; intros nd state id nd' state' Hrun;
    [discriminate|].
  simpl in Hrun. apply bind_Ok in Hrun as (n & Hn%deref_Ok & Hrun).
  case_bool_decide; [injection Hrun as <- <-; constructor|].
  apply bind_Ok in Hrun as ([v [c|]] & Hsel & Hrun); simpl in Hrun;
    [|injection Hrun as <- <-; constructor].
  apply bind_Ok in Hrun as (cn & Hcn%deref_Ok & Hrun).
  apply bind_Ok in Hrun as (st1 & Hnext & Hrun).
  apply select_picks_child in Hsel.
  apply list_elem_of_fmap in Hsel as ([k c'] & -> & Hc). simpl in *.
  unfold next_of in Hnext. destruct state as [s|]; [|discriminate].
  simpl in Hnext. destruct (parent_action cn) as [a|] eqn:Hpa; [|discriminate].
  injection Hnext as <-.
  eapply descends_step; eauto.
Qed.

(** In a well-formed arena traversal ends at a node that has an untried
    action or has no child. *)
Lemma traverse_ends fuel h : forall nd state id nd' state',
  wf h ->
  traverse_nodes board fuel h nd state id = Ok (nd', state') ->
  exists n', h !! nd' = Some n' /\
    (untried_actions n' ≠ [] \/ child_nodes n' = []).
Proof.
  induction fuel as [|fuel IH]; intros nd state id nd' state' Hwf Hrun;
    [discriminate|].
  simpl in Hrun. apply bind_Ok in Hrun as (n & Hn%deref_Ok & Hrun).
  case_bool_decide as Hu; [injection Hrun as <- <-; eauto|].
  apply bind_Ok in Hrun as ([v [c|]] & Hsel & Hrun); simpl in Hrun.
  - apply bind_Ok in Hrun as (cn & _ & Hrun).
    apply bind_Ok in Hrun as (st1 & _ & Hrun). by eapply IH.
  - injection Hrun as <- <-. exists n. split; [done|]. right.
    destruct (child_nodes n) as [|[k c] rest] eqn:Hc; [done|]. exfalso.
    destruct (select_spec _ _ _ _ _ _ Hsel)
      as (_ & _ & [(_ & -> & Hneg)|(i & c' & [=] & _)]).
    simpl in Hsel. apply bind_Ok in Hsel as (b' & Hk & _).
    apply keep_best_Ok in Hk as (vx & Hvx & _).
    specialize (Hneg 0%nat c vx eq_refl Hvx).
    unfold child_score in Hvx.
    apply bind_Ok in Hvx as (s & _ & Hvx).
    assert (Hin : (k, c) ∈ child_nodes n) by (rewrite Hc; left).
    destruct (wf_ucb_defined h nd n k c
                (bool_decide (current_player board s ≠ id)) Hwf Hn Hin)
      as (v' & Hv' & Hpos).
    assert (v' = vx) by congruence. subst. lra.
Qed.

Lemma traverse_from_open_root fuel h r state id nd' state' :
  h !! 0%nat = Some r -> untried_actions r ≠ [] ->
  traverse_nodes board fuel h 0%nat state id = Ok (nd', state') ->
  nd' = 0%nat /\ state' = state.
Proof.
  intros Hr Hu Hrun. destruct fuel as [|fuel]; [discriminate|].
  rewrite (traverse_stop board fuel h 0%nat r state id Hr Hu) in Hrun.
  by injection Hrun as <- <-.
Qed.

(** Expansion keeps the keys of the tree in order. *)
Lemma expand_leaf_keeps acts h k nd state nd' state' h' k' :
  keyed h -> root_within acts h ->
  expand_leaf board rnd h k nd state = Ok (nd', state', h', k') ->
  keyed h' /\ root_within acts h' /\
  (length h <= length h' <= S (length h))%nat /\
  (root_has_child h -> root_has_child h') /\
  (forall s n, state = Some s -> h !! nd = Some n -> nd = 0%nat ->
     is_ended board s = false -> untried_actions n ≠ [] ->
     root_has_child h').
Proof.
  intros Hkey Hroot Hrun. pose proof Hrun as Hrun0.
  apply expand_leaf_Ok in Hrun
    as [(-> & -> & -> & -> & Hlt)
       |(s & n & act & ns & -> & Hn & Hend & Hact & Hnext & -> & -> & ->)].
  { split; [done|]. split; [done|]. split; [lia|]. split; [done|].
    intros s n -> Hn -> Hend Hu. exfalso.
    unfold expand_leaf in Hrun0. simpl in Hrun0.
    rewrite (proj2 (deref_Ok _ _ _) Hn) in Hrun0. simpl in Hrun0.
    rewrite Hend, bool_decide_true in Hrun0 by done. simpl in Hrun0.
    apply bind_Ok in Hrun0 as ([act k1] & _ & Hrun0).
    apply bind_Ok in Hrun0 as (ns & _ & Hrun0).
    injection Hrun0 as _ _ Hh _. apply (f_equal length) in Hh.
    rewrite length_app, length_insert in Hh. simpl in Hh. lia. }
  clear Hrun0.
  assert (Hnd : (nd < length h)%nat) by (by eapply lookup_lt_Some).
  set (n' := mkNode _ _ _ _ _ _). set (child := new_node _ _ _).
  assert (Hkeep : forall c cn, h !! c = Some cn ->
            exists cn', (<[nd := n']> h ++ [child]) !! c = Some cn' /\
                        parent_action cn' = parent_action cn).
  { intros c cn Hcn.
    assert (c < length h)%nat by (by eapply lookup_lt_Some).
    rewrite lookup_app_l by (by rewrite length_insert).
    destruct (decide (c = nd)) as [->|Hne].
    - rewrite list_lookup_insert_eq by done. exists n'.
      split; [done|]. by assert (cn = n) as -> by congruence.
    - rewrite list_lookup_insert_ne by done. eauto. }
  assert (Hnew : (<[nd := n']> h ++ [child]) !! length h = Some child).
  { rewrite lookup_app_r by (rewrite length_insert; lia).
    by rewrite length_insert, Nat.sub_diag. }
  assert (Hold : forall a x key c, h !! a = Some x -> (key, c) ∈ child_nodes x ->
            exists cn, (<[nd := n']> h ++ [child]) !! c = Some cn /\
                       parent_action cn = Some key).
  { intros a x key c Hx Hc.
    destruct (Hkey _ _ _ _ Hx Hc) as (cn & Hcn & Hpa).
    destruct (Hkeep _ _ Hcn) as (cn' & ? & ?). exists cn'.
    split; [done|congruence]. }
  split; [|split; [|split; [|split]]].
  - intros a x key c Hx Hc.
    apply lookup_grown in Hx as [[-> ->]|[[-> ->]|[_ Hx]]]; [| | |done].
    + by apply elem_of_nil in Hc.
    + simpl in Hc. apply dict_update_elem in Hc as [[= -> ->]|Hc].
      * by exists child.
      * by eapply Hold.
    + by eapply Hold.
  - intros r a Hr Ha.
    destruct (decide (nd = 0%nat)) as [->|Hne].
    + rewrite lookup_app_l in Hr by (rewrite length_insert; lia).
      rewrite list_lookup_insert_eq in Hr by done. injection Hr as <-.
      simpl in Ha. apply (Hroot n a Hn). destruct Ha as [Ha|Ha].
      * left. apply (list_remove_perm act) in Hact.
        rewrite Hact. by right.
      * apply dict_update_keys in Ha as [->|Ha]; [by left|by right].
    + rewrite lookup_app_l in Hr by (rewrite length_insert; lia).
      rewrite list_lookup_insert_ne in Hr by done. by eapply Hroot.
  - rewrite length_app, length_insert. simpl. lia.
  - intros (r & Hr & Hc). destruct (decide (nd = 0%nat)) as [->|Hne].
    + exists n'. split.
      * rewrite lookup_app_l by (rewrite length_insert; lia).
        by rewrite list_lookup_insert_eq.
      * simpl. intros Hnil.
        pose proof (dict_update_new act (length h) (child_nodes n)) as Hin.
        rewrite Hnil in Hin. by apply elem_of_nil in Hin.
    + exists r. split; [|done].
      rewrite lookup_app_l by (rewrite length_insert; lia).
      by rewrite list_lookup_insert_ne.
  - intros s0 n0 _ _ -> _ _. exists n'. split.
    + rewrite lookup_app_l by (rewrite length_insert; lia).
      by rewrite list_lookup_insert_eq.
    + simpl. intros Hnil.
      pose proof (dict_update_new act (length h) (child_nodes n)) as Hin.
      rewrite Hnil in Hin. by apply elem_of_nil in Hin.
Qed.

End SearchMore.

Section LoopMore.
Context {Action State : Type} `{Countable Action}.
Variable board : Board Action State.
Variable rnd : nat -> nat.
Variable simulate :
  nat -> option State -> Z -> nat -> gmap Action Action ->
  result (bool * nat * gmap Action Action).
Implicit Types h : list (MCTSNode Action).

(** Backpropagation keeps the keys of the tree in order. *)
Lemma backpropagate_keeps acts fuel h nd won h' :
  backpropagate fuel h nd won = Ok h' ->
  keyed h -> root_within acts h ->
  keyed h' /\ root_within acts h' /\ length h' = length h /\
  (root_has_child h -> root_has_child h').
Proof.
  intros Hrun Hkey Hroot.
  apply backpropagate_shape in Hrun as [Hlen Hshape].
  split; [|split; [|split; [done|]]].
  - intros a n' k c Hn' Hc.
    destruct (Hshape a n' Hn') as (n & Hn & _ & _ & Hcn & _).
    rewrite Hcn in Hc. destruct (Hkey _ _ _ _ Hn Hc) as (cn & Hcn0 & Hpa).
    assert (Hlt : (c < length h')%nat)
      by (rewrite Hlen; by eapply lookup_lt_Some).
    destruct (lookup_lt_is_Some_2 h' c Hlt) as [cn' Hcn'].
    destruct (Hshape c cn' Hcn') as (cn1 & Hcn1 & _ & Hpa1 & _).
    exists cn'. split; [done|]. congruence.
  - intros r' a Hr' Ha.
    destruct (Hshape _ _ Hr') as (r & Hr & _ & _ & Hc & Hu & _).
    rewrite Hc, Hu in Ha. by eapply Hroot.
  - intros (r & Hr & Hc).
    assert (Hlt : (0 < length h')%nat)
      by (rewrite Hlen; by eapply lookup_lt_Some).
    destruct (lookup_lt_is_Some_2 h' 0%nat Hlt) as [r' Hr'].
    destruct (Hshape _ _ Hr') as (r0 & Hr0 & _ & _ & Hc0 & _).
    exists r'. split; [done|]. rewrite Hc0. congruence.
Qed.

(** What one pass keeps, beyond the invariant of the arena. *)
Lemma iteration_keeps acts fuel s0 id w w' :
  keyed (nodes w) -> root_within acts (nodes w) ->
  iteration board rnd simulate fuel s0 id w = Ok w' ->
  keyed (nodes w') /\ root_within acts (nodes w') /\
  (length (nodes w) <= length (nodes w') <= S (length (nodes w)))%nat /\
  (root_has_child (nodes w) -> root_has_child (nodes w')) /\
  (forall r, nodes w !! 0%nat = Some r -> untried_actions r ≠ [] ->
     is_ended board s0 = false -> root_has_child (nodes w')).
Proof.
  intros Hkey Hroot Hrun. unfold iteration in Hrun.
  apply bind_Ok in Hrun as ([nd st] & Htr & Hrun).
  apply bind_Ok in Hrun as ([[[nd1 st1] h1] k1] & Hex & Hrun).
  apply bind_Ok in Hrun as ([[win k2] t2] & Hsim & Hrun).
  apply bind_Ok in Hrun as (h2 & Hbp & Hrun). injection Hrun as <-. simpl.
  destruct (expand_leaf_keeps board rnd acts _ _ _ _ _ _ _ _ Hkey Hroot Hex)
    as (Hkey1 & Hroot1 & Hlen1 & Hchild1 & Hfirst1).
  destruct (backpropagate_keeps acts _ _ _ _ _ Hbp Hkey1 Hroot1)
    as (Hkey2 & Hroot2 & Hlen2 & Hchild2).
  split; [done|]. split; [done|]. split; [lia|]. split; [by auto|].
  intros r Hr Hu Hend. apply Hchild2.
  destruct (traverse_from_open_root board _ _ _ _ _ _ _ Hr Hu Htr) as [-> ->].
  by eapply Hfirst1.
Qed.

Lemma iterations_keeps acts n fuel s0 id : forall w w',
  keyed (nodes w) -> root_within acts (nodes w) ->
  iterations board rnd simulate n fuel s0 id w = Ok w' ->
  keyed (nodes w') /\ root_within acts (nodes w') /\
  (length (nodes w) <= length (nodes w') <= length (nodes w) + n)%nat /\
  (root_has_child (nodes w) -> root_has_child (nodes w')).
Proof.
  induction n as [|n IH]; intros w w' Hkey Hroot Hrun.
  { injection Hrun as <-. repeat split; try done; lia. }
  simpl in Hrun. apply bind_Ok in Hrun as (w1 & Hstep & Hrun).
  apply (iteration_keeps acts) in Hstep
    as (Hkey1 & Hroot1 & Hlen1 & Hchild1 & _); [|done..].
  apply IH in Hrun as (Hkey2 & Hroot2 & Hlen2 & Hchild2); [|done..].
  repeat split; try done; try lia. auto.
Qed.

Lemma keyed_initial (acts : list Action) :
  keyed [new_node None None acts] /\
  root_within acts [new_node None None acts].
Proof.
  split.
  - intros [|[|a]] n k c Hn Hc; try done. injection Hn as <-.
    by apply elem_of_nil in Hc.
  - intros r a [= <-] [Ha|Ha]; [done|]. by apply elem_of_nil in Ha.
Qed.

(** The arena after the loop of [think]. *)
Lemma search_keeps n fuel s0 k t w :
  search board rnd simulate n fuel s0 k t = Ok w ->
  keyed (nodes w) /\ root_within (legal_actions board s0) (nodes w) /\
  (1 <= length (nodes w) <= S n)%nat.
Proof.
  unfold search. intros Hrun.
  destruct (keyed_initial (legal_actions board s0)) as [Hkey Hroot].
  apply (iterations_keeps (legal_actions board s0)) in Hrun
    as (? & ? & Hlen & _); [|done..].
  simpl in Hlen. repeat split; try done; lia.
Qed.

(** After at least one pass from a state that is not terminal and has a
    legal action, the root has a child. *)
Lemma search_root_has_child n fuel s0 k t w :
  is_ended board s0 = false -> legal_actions board s0 ≠ [] ->
  search board rnd simulate (S n) fuel s0 k t = Ok w ->
  root_has_child (nodes w).
Proof.
  unfold search. intros Hend Hacts Hrun. cbn [iterations] in Hrun.
  apply bind_Ok in Hrun as (w1 & Hstep & Hrun).
  destruct (keyed_initial (legal_actions board s0)) as [Hkey Hroot].
  apply (iteration_keeps (legal_actions board s0)) in Hstep
    as (Hkey1 & Hroot1 & _ & _ & Hfirst); [|done..].
  apply (iterations_keeps (legal_actions board s0)) in Hrun
    as (_ & _ & _ & Hchild); [|done..].
  apply Hchild. by eapply (Hfirst _ eq_refl).
Qed.

(** No node is visited more often than the root. *)
Lemma wf_visits_le_root h r :
  wf h -> h !! 0%nat = Some r ->
  forall a n, h !! a = Some n -> visits n <= visits r.
Proof.
  intros Hwf Hr a. induction (lt_wf a) as [a _ IH]. intros n Hn.
  destruct (parent n) as [p|] eqn:Hp.
  - assert (Hpa : parent_of h a = Some p) by (apply parent_of_Some; eauto).
    pose proof (wf_below _ _ Hwf _ _ Hpa) as Hlt.
    assert (Hplt : (p < length h)%nat)
      by (apply lookup_lt_Some in Hn; lia).
    destruct (lookup_lt_is_Some_2 h p Hplt) as [pn Hpn].
    pose proof (wf_mono _ _ Hwf _ _ _ _ Hn Hp Hpn).
    specialize (IH p Hlt pn Hpn). lia.
  - rewrite (wf_orphan _ _ Hwf _ _ Hn Hp) in Hn.
    assert (n = r) by congruence. subst. lia.
Qed.

(** On a well-formed arena with keys in order, the final selection
    returns an action of the root. *)
Lemma get_best_action_Ok acts h a :
  keyed h -> root_within acts h ->
  get_best_action h 0%nat = Ok a ->
  exists act, a = Some act /\ act ∈ acts.
Proof.
  intros Hkey Hroot Hrun. unfold get_best_action in Hrun.
  apply bind_Ok in Hrun as (r & Hr%deref_Ok & Hrun).
  apply bind_Ok in Hrun as ([v [c|]] & Hsel & Hrun); simpl in Hrun;
    [|discriminate].
  apply bind_Ok in Hrun as (cn & Hcn%deref_Ok & Hrun). injection Hrun as <-.
  apply select_picks_child in Hsel.
  apply list_elem_of_fmap in Hsel as ([key c'] & -> & Hc). simpl in *.
  destruct (Hkey _ _ _ _ Hr Hc) as (cn' & Hcn' & Hpa).
  assert (cn' = cn) by congruence. subst.
  exists key. split; [done|]. apply (Hroot r key Hr). right.
  apply list_elem_of_fmap. by exists (key, c').
Qed.

(** On a well-formed arena the final selection raises only for a root
    without children. *)
Lemma get_best_action_Raise h e :
  wf h -> get_best_action h 0%nat = Raise e ->
  e = AttributeError /\ ~ root_has_child h.
Proof.
  intros Hwf Hrun. unfold get_best_action in Hrun.
  apply bind_Raise in Hrun as [Hr|(r & Hr%deref_Ok & Hrun)];
    [by apply deref_Raise in Hr|].
  assert (Hscore : forall c, c ∈ (child_nodes r).*2 ->
            exists v, win_rate h c = Ok v /\ (0 <= v)%R).
  { intros c Hc. apply list_elem_of_fmap in Hc as ([key c'] & -> & Hc).
    destruct (wf_child_seen _ _ _ _ _ Hwf Hr Hc) as (cn & Hcn & _ & Hv & _ & Hw).
    exists (IZR (wins cn) / IZR (visits cn))%R. split.
    - unfold win_rate, deref. simpl. rewrite Hcn. simpl.
      by rewrite bool_decide_false by lia.
    - apply win_ratio_unit; lia. }
  apply bind_Raise in Hrun as [Hsel|([v [c|]] & Hsel & Hrun)].
  - apply select_Raise in Hsel as (c & Hc & Hraise).
    destruct (Hscore c Hc) as (v & Hv & _). congruence.
  - simpl in Hrun.
    apply bind_Raise in Hrun as [Hd|(cn & _ & Hrun)];
      [by apply deref_Raise in Hd|discriminate].
  - simpl in Hrun. injection Hrun as <-. split; [done|].
    intros (r' & Hr' & Hne). assert (r' = r) by congruence. subst.
    assert (Hne' : (child_nodes r).*2 ≠ [])
      by (intros Hnil; by apply fmap_nil_inv in Hnil).
    destruct (select_last_best _ _ Hne' Hscore) as (i & c & v' & _ & Hsel').
    congruence.
Qed.

End LoopMore.

Section TableThroughSearch.
Context {Action State : Type} `{Countable Action}.
Variable board : Board Action State.
Variable rnd : nat -> nat.

Lemma modified_simulate_keeps_keys fuel state id k t win k' t' key :
  Modified.simulate board rnd fuel state id k t = Ok (win, k', t') ->
  is_Some (t !! key) -> is_Some (t' !! key).
Proof.
  unfold Modified.simulate, Modified.rollout. intros Hrun Hkey.
  apply bind_Ok in Hrun as ([[[st won] k1] t1] & Hroll & Hrun).
  injection Hrun as <- <- <-.
  apply bind_Ok in Hroll as ([[st' hist] k2] & _ & Hroll).
  apply bind_Ok in Hroll as (w & _ & Hroll). injection Hroll as <- <- <- <-.
  unfold update_replies. by apply (unwind_keeps _ (length (rev hist))).
Qed.

Lemma modified_iterations_keep_keys n fuel s0 id key : forall w w',
  iterations board rnd (Modified.simulate board rnd) n fuel s0 id w = Ok w' ->
  is_Some (replies w !! key) -> is_Some (replies w' !! key).
Proof.
  induction n as [|n IH]; intros w w' Hrun Hkey.
  { by injection Hrun as <-. }
  simpl in Hrun. apply bind_Ok in Hrun as (w1 & Hstep & Hrun).
  eapply IH; [exact Hrun|]. unfold iteration in Hstep.
  apply bind_Ok in Hstep as ([nd st] & _ & Hstep).
  apply bind_Ok in Hstep as ([[[nd1 st1] h1] k1] & _ & Hstep).
  apply bind_Ok in Hstep as ([[win k2] t2] & Hsim & Hstep).
  apply bind_Ok in Hstep as (h2 & _ & Hstep). injection Hstep as <-. simpl.
  by eapply modified_simulate_keeps_keys.
Qed.

End TableThroughSearch.

(** X13: when [think] returns, in either module, it returns one of the
    legal actions of the state it was called on. *)
Theorem think_returns_a_legal_action :
  forall (Action State : Type) (EqA : EqDecision Action) (CA : Countable Action)
         (board : Board Action State) (rnd : nat -> nat) fuel s0 k t,
    (forall a w, Vanilla.think board rnd fuel s0 k t = Ok (a, w) ->
       exists act, a = Some act /\ act ∈ legal_actions board s0) /\
    (forall a w, Modified.think board rnd fuel s0 k t = Ok (a, w) ->
       exists act, a = Some act /\ act ∈ legal_actions board s0).
Proof.
  intros Action State EqA CA board rnd fuel s0 k t.
  assert (Hgen : forall simulate n a w,
            think_with board rnd simulate n fuel s0 k t = Ok (a, w) ->
            exists act, a = Some act /\ act ∈ legal_actions board s0).
  { intros simulate n a w Hrun. unfold think_with in Hrun.
    apply bind_Ok in Hrun as (w' & Hsearch & Hrun).
    apply bind_Ok in Hrun as (a' & Hbest & Hrun). injection Hrun as <- <-.
    apply search_keeps in Hsearch as (Hkey & Hroot & _).
    by eapply get_best_action_Ok. }
  split; intros a w Hrun; by eapply Hgen.
Qed.

(** X13 (witness): the one-move game. *)
Lemma think_returns_a_legal_action_witness :
  exists act, Some 0%nat = Some act /\ act ∈ legal_actions one_move 0%nat.
Proof.
  exact (proj1 (think_returns_a_legal_action nat nat _ _ one_move first_draw
                  2 0%nat 0%nat ∅) _ _ one_move_think_vanilla).
Defined.

(** X14: called on a state that is not terminal and has a legal action,
    [think] raises, in either module, nothing but the errors of the adapter,
    of [random.choice] and of scoring: no [ZeroDivisionError] or
    [ValueError] from [ucb] or from the final division, and no
    [AttributeError] from a root without children. *)
Theorem think_raises_only_outside_errors :
  forall (Action State : Type) (EqA : EqDecision Action) (CA : Countable Action)
         (board : Board Action State) (rnd : nat -> nat) fuel s0 k t e,
    is_ended board s0 = false -> legal_actions board s0 ≠ [] ->
    (Vanilla.think board rnd fuel s0 k t = Raise e -> outside_ucb e) /\
    (Modified.think board rnd fuel s0 k t = Raise e -> outside_ucb e).
Proof.
  intros Action State EqA CA board rnd fuel s0 k t e Hend Hacts.
  assert (Hgen : forall simulate n,
            (forall f st id k' t' e', simulate f st id k' t' = Raise e' ->
               outside_ucb e') ->
            think_with board rnd simulate (S n) fuel s0 k t = Raise e ->
            outside_ucb e).
  { intros simulate n Hsim Hrun. unfold think_with in Hrun.
    apply bind_Raise in Hrun as [Hr|(w & Hsearch & Hrun)].
    - apply search_Raise in Hr as [->|[->|(f & st & id & k' & t' & Hs)]];
        [by left|right; by left|by eapply Hsim].
    - apply bind_Raise in Hrun as [Hbest|(a & _ & Hrun)]; [|discriminate].
      exfalso.
      pose proof (search_root_has_child _ _ _ _ _ _ _ _ _ Hend Hacts Hsearch).
      apply search_spec in Hsearch as [Hwf _].
      by apply get_best_action_Raise in Hbest as [_ Hno]. }
  split; intros Hrun.
  - eapply (Hgen _ 99%nat); [|exact Hrun].
    intros. by eapply vanilla_simulate_Raise.
  - eapply (Hgen _ 899%nat); [|exact Hrun].
    intros. by eapply modified_simulate_Raise.
Qed.

(** X14 (witness): the game with a dead end, whose search fails the
    assertion of [is_win]. *)
Lemma think_raises_only_outside_errors_witness : outside_ucb AssertionError.
Proof.
  apply (proj1 (think_raises_only_outside_errors nat nat _ _ dead_end
                  first_draw 5 0%nat 0%nat ∅ AssertionError
                  eq_refl ltac:(discriminate))).
  vm_compute. reflexivity.
Defined.

(** X15: a pass adds at most one node to the tree: after [n] passes of the
    loop of [think] the tree has at least the root and at most [n + 1]
    nodes. *)
Theorem tree_grows_by_at_most_one_node_per_pass :
  forall (Action State : Type) (EqA : EqDecision Action) (CA : Countable Action)
         (board : Board Action State) (rnd : nat -> nat) simulate n fuel s0 k t w,
    search board rnd simulate n fuel s0 k t = Ok w ->
    (1 <= length (nodes w) <= S n)%nat.
Proof.
  intros Action State EqA CA board rnd simulate n fuel s0 k t w Hrun.
  by apply search_keeps in Hrun as (_ & _ & ?).
Qed.

(** X15 (witness): three passes on the one-move game. *)
Lemma tree_grows_by_at_most_one_node_per_pass_witness :
  (1 <= length (one_move_nodes 3) <= 4)%nat.
Proof.
  exact (tree_grows_by_at_most_one_node_per_pass nat nat _ _ one_move
           first_draw _ 3%nat 2%nat 0%nat 0%nat ∅ _
           (one_move_search _ 2 0 ∅ (fun d => one_move_vanilla d ∅))).
Defined.

(** X16: after [n] passes of the loop of [think] no node has more than [n]
    visits, and every node but the root has at least one. *)
Theorem visits_bounded_by_the_passes :
  forall (Action State : Type) (EqA : EqDecision Action) (CA : Countable Action)
         (board : Board Action State) (rnd : nat -> nat) simulate n fuel s0 k t w,
    search board rnd simulate n fuel s0 k t = Ok w ->
    forall a nd, nodes w !! a = Some nd ->
      visits nd <= Z.of_nat n /\ (a ≠ 0%nat -> 1 <= visits nd).
Proof.
  intros Action State EqA CA board rnd simulate n fuel s0 k t w Hrun a nd Hnd.
  apply search_spec in Hrun as [Hwf Hroot]. unfold root_visits in Hroot.
  destruct (nodes w !! 0%nat) as [r|] eqn:Hr; [|discriminate].
  injection Hroot as Hroot. split.
  - rewrite <- Hroot. by eapply wf_visits_le_root.
  - intros Ha. by eapply (wf_seen _ _ Hwf).
Qed.

(** X16 (witness): the child in the one-move game after three passes. *)
Lemma visits_bounded_by_the_passes_witness :
  3 <= Z.of_nat 3 /\ (1%nat ≠ 0%nat -> 1 <= 3).
Proof.
  exact (visits_bounded_by_the_passes nat nat _ _ one_move first_draw _
           3%nat 2%nat 0%nat 0%nat ∅ _
           (one_move_search _ 2 0 ∅ (fun d => one_move_vanilla d ∅))
           1%nat _ eq_refl).
Defined.

(** X17: on the arena of a search in progress, traversal returns a node
    reached from its start along child links, with the state reached by the
    parent actions on the way; the node has an untried action or has no
    child at all. *)
Theorem traverse_ends_at_an_open_or_childless_node :
  forall (Action State : Type) (EqA : EqDecision Action) (CA : Countable Action)
         (board : Board Action State) fuel (h : list (MCTSNode Action))
         nd state id nd' state',
    wf h ->
    traverse_nodes board fuel h nd state id = Ok (nd', state') ->
    descends board h nd state nd' state' /\
    exists n', h !! nd' = Some n' /\
      (untried_actions n' ≠ [] \/ child_nodes n' = []).
Proof.
  intros Action State EqA CA board fuel h nd state id nd' state' Hwf Hrun.
  split; [by eapply traverse_descends|by eapply traverse_ends].
Qed.

(** X17 (witness): the one-move game after three passes. *)
Lemma traverse_ends_at_an_open_or_childless_node_witness :
  descends one_move (one_move_nodes 3) 0%nat (Some 0%nat) 1%nat (Some 1%nat).
Proof.
  pose proof (one_move_search _ 2 0 ∅ (fun d => one_move_vanilla d ∅)) as Hrun.
  apply search_spec in Hrun as [Hwf _].
  exact (proj1 (traverse_ends_at_an_open_or_childless_node nat nat _ _
                  one_move 2 _ 0%nat (Some 0%nat) 1 1%nat (Some 1%nat) Hwf
                  (one_move_traverse 3 ltac:(lia)))).
Defined.

(** X18: the search of the enhanced module forgets no reply: every key of
    the reply table [think] starts with is a key of the table it ends
    with. *)
Theorem think_keeps_the_keys_of_the_table :
  forall (Action State : Type) (EqA : EqDecision Action) (CA : Countable Action)
         (board : Board Action State) (rnd : nat -> nat) fuel s0 k t a w key,
    Modified.think board rnd fuel s0 k t = Ok (a, w) ->
    is_Some (t !! key) -> is_Some (replies w !! key).
Proof.
  intros Action State EqA CA board rnd fuel s0 k t a w key Hrun Hkey.
  unfold Modified.think, think_with in Hrun.
  apply bind_Ok in Hrun as (w' & Hsearch & Hrun).
  apply bind_Ok in Hrun as (a' & _ & Hrun). injection Hrun as <- <-.
  unfold search in Hsearch.
  by eapply modified_iterations_keep_keys in Hsearch.
Qed.

(** X18 (witness): the one-move game with one reply in the table. *)
Lemma think_keeps_the_keys_of_the_table_witness :
  is_Some ((<[7%nat := 8%nat]> (∅ : gmap nat nat)) !! 7%nat).
Proof.
  assert (Hrun : Modified.think one_move first_draw 2 0%nat 0
                   (<[7%nat := 8%nat]> ∅)
                 = Ok (Some 0%nat,
                       mkWorld (one_move_nodes 900) 1 (<[7%nat := 8%nat]> ∅))).
  { unfold Modified.think, think_with, Modified.num_nodes.
    rewrite (one_move_search _ 899 0 _
               (fun d => one_move_modified d (<[7%nat := 8%nat]> ∅))).
    cbn [mbind result_bind nodes]. by rewrite one_move_best by lia. }
  apply (think_keeps_the_keys_of_the_table nat nat _ _ one_move first_draw
           _ _ _ _ _ _ 7%nat Hrun).
  rewrite lookup_insert_eq. by eexists.
Defined.

(** * The scores with the conversion checks *)

Lemma true_div_in_range (a b : Z) :
  b ≠ 0 -> Z.abs a < float_limit * Z.abs b ->
  true_div a b = Ok (IZR a / IZR b)%R.
Proof.
  intros Hb Ha. unfold true_div.
  rewrite bool_decide_false by done. by rewrite bool_decide_false by lia.
Qed.

Lemma div_by_int_in_range (x : R) (b : Z) :
  b ≠ 0 -> Z.abs b < float_limit ->
  div_by_int x b = Ok (x / IZR b)%R.
Proof.
  intros Hb Hlim. unfold div_by_int.
  rewrite bool_decide_false by lia. by rewrite bool_decide_false by done.
Qed.

(** Below [float_limit] the checks never fire: [Checked.ucb] is [ucb]. *)
Lemma checked_ucb_in_range {Action} (h : list (MCTSNode Action)) c n is_opponent :
  h !! c = Some n -> 0 < visits n < float_limit ->
  Z.abs (wins n) < float_limit * visits n ->
  Checked.ucb h c is_opponent = ucb h c is_opponent.
Proof.
  intros Hc Hv Hw. unfold Checked.ucb, ucb, deref. rewrite Hc.
  cbn [mbind result_bind].
  rewrite true_div_in_range by lia. cbn [mbind result_bind].
  rewrite bool_decide_false by lia.
  destruct (parent n) as [p|]; [|done].
  destruct (h !! p) as [pn|]; [|done]. cbn [mbind result_bind].
  case_bool_decide; [done|].
  rewrite div_by_int_in_range by lia. done.
Qed.

Lemma checked_win_rate_in_range {Action} (h : list (MCTSNode Action)) c n :
  h !! c = Some n -> Z.abs (wins n) < float_limit * Z.abs (visits n) ->
  Checked.win_rate h c = win_rate h c.
Proof.
  intros Hc Hw. unfold Checked.win_rate, win_rate, deref. rewrite Hc.
  cbn [mbind result_bind]. unfold true_div.
  case_bool_decide; [done|]. by rewrite bool_decide_false by lia.
Qed.





(** * Ties in the two selection loops *)

Section Ties.
Context {Action State : Type} `{Countable Action}.
Variable board : Board Action State.
Implicit Types h : list (MCTSNode Action).




End Ties.




(** * The replies a rollout writes *)

Section RepliesOfARollout.
Context {Action State : Type} `{Countable Action}.
Variable board : Board Action State.
Variable rnd : nat -> nat.

(** A replay can be cut anywhere. *)
Lemma replay_split h1 : forall s h2 s',
  replay board s (h1 ++ h2) s' ->
  exists sm, replay board s h1 sm /\ replay board sm h2 s'.
Proof.
  induction h1 as [|x h1 IH]; intros s h2 s' Hplay; simpl in Hplay.
  - exists s. split; [constructor|done].
  - inversion Hplay as [|? a s1 ? ? Hend Hleg Hnext Hrest]; subst.
    apply IH in Hrest as (sm & Hleft & Hright).
    exists sm. split; [|done]. by econstructor.
Qed.

(** The parts of a returning rollout: its playout with the history, the
    verdict, the update; and where each new entry of the table comes from
    in that history. *)
Lemma rollout_parts fuel s id k t state' won k' t' :
  Modified.rollout board rnd fuel (Some s) id k t
    = Ok (state', won, k', t') ->
  exists hist s',
    Modified.playout board rnd fuel t (Some s) [] None k
      = Ok (state', hist, k') /\
    state' = Some s' /\ replay board s hist s' /\
    is_win board state' id = Ok won /\
    t' = update_replies (Modified.winner_of id won) hist t /\
    forall key value, t' !! key = Some value ->
      t !! key = Some value \/
      exists h1 m1 h2 s1 s2 s3,
        hist = h1 ++ (key, m1) :: (value, Modified.winner_of id won) :: h2 /\
        replay board s h1 s1 /\
        replay board s (h1 ++ [(key, m1)]) s2 /\
        next_state board s1 key = Some s2 /\
        next_state board s2 value = Some s3 /\
        current_player board s3 = Modified.winner_of id won.
Proof.
  intros Hrun. unfold Modified.rollout in Hrun.
  apply bind_Ok in Hrun as ([[st hist] k1] & Hplay & Hrun).
  apply bind_Ok in Hrun as (w & Hwin & Hrun).
  injection Hrun as <- <- <- <-.
  pose proof Hplay as Hplay0.
  apply playout_replay in Hplay0 as (s' & new & -> & Hnew & Hreplay).
  simpl in Hnew. subst new.
  exists hist, s'. repeat (split; [done|]).
  intros key value Hlk.
  apply update_replies_lookup in Hlk
    as [?|(h1 & m1 & h2 & Hhist)]; [by left|right].
  exists h1, m1, h2.
  rewrite Hhist in Hreplay.
  apply replay_split in Hreplay as (s1 & Hleft & Hright).
  inversion Hright as [|? ? s2 ? ? Hend1 Hleg1 Hnext1 Hrest]; subst.
  inversion Hrest as [|? ? s3 ? ? Hend2 Hleg2 Hnext2 _]; subst.
  exists s1, s2, s3. repeat (split; [done|]).
  split; [by eapply replay_snoc|]. split; [done|]. split; [done|].
  congruence.
Qed.

End RepliesOfARollout.

(** X8: when the enhanced rollout returns from a game state, its flag is
    the verdict of [is_win] on the state it returns and its table is the
    update of the old one by the history of its own playout, which replays
    from the start state to the state returned.  Every entry
    [key -> value] of the new table was in the old one, or [(key, _)] and
    [(value, winner)] are neighbours in that history: [key] was played in
    the state the playout had reached by then, [value] in the state [key]
    led to, and after [value] it was the turn of the identity the rollout
    took for the winner. *)
Theorem rollout_writes_replies_of_the_playout :
  forall (Action State : Type) (EqA : EqDecision Action) (CA : Countable Action)
         (board : Board Action State) (rnd : nat -> nat) fuel s id k t
         state' won k' t',
    Modified.rollout board rnd fuel (Some s) id k t
      = Ok (state', won, k', t') ->
    exists hist s',
      Modified.playout board rnd fuel t (Some s) [] None k
        = Ok (state', hist, k') /\
      state' = Some s' /\ replay board s hist s' /\
      is_win board state' id = Ok won /\
      t' = update_replies (Modified.winner_of id won) hist t /\
      forall key value, t' !! key = Some value ->
        t !! key = Some value \/
        exists h1 m1 h2 s1 s2 s3,
          hist = h1 ++ (key, m1) :: (value, Modified.winner_of id won) :: h2 /\
          replay board s h1 s1 /\
          next_state board s1 key = Some s2 /\
          next_state board s2 value = Some s3 /\
          current_player board s3 = Modified.winner_of id won.
Proof.
  intros Action State EqA CA board rnd fuel s id k t state' won k' t' Hrun.
  destruct (rollout_parts board rnd _ _ _ _ _ _ _ _ _ Hrun)
    as (hist & s' & Hplay & Hs' & Hreplay & Hwin & Ht' & Hentries).
  exists hist, s'. repeat (split; [done|]).
  intros key value Hlk.
  destruct (Hentries key value Hlk)
    as [?|(h1 & m1 & h2 & s1 & s2 & s3 & ? & ? & _ & ? & ? & ?)]; [by left|].
  right. by exists h1, m1, h2, s1, s2, s3.
Qed.

Lemma race4_rollout :
  Modified.rollout race4 first_draw 10 (Some 0%nat) 1 0 ∅
  = Ok (Some 4%nat, false, 4%nat, <[1%nat := 2%nat]> ∅).
Proof. vm_compute. reflexivity. Qed.

Lemma race4_playout :
  Modified.playout race4 first_draw 10 ∅ (Some 0%nat) [] None 0
  = Ok (Some 4%nat, [(0%nat, 2); (1%nat, 1); (2%nat, 2); (3%nat, 1)], 4%nat).
Proof. vm_compute. reflexivity. Qed.

(** X8 (witness): the race to 4 played for identity 1, which loses it; the
    rollout learns the reply 2 to the move 1, the second and third moves of
    its playout. *)
Lemma rollout_writes_replies_of_the_playout_witness :
  exists h1 m1 h2 s1 s2 s3,
    [(0%nat, 2); (1%nat, 1); (2%nat, 2); (3%nat, 1)]
    = h1 ++ (1%nat, m1) :: (2%nat, Modified.winner_of 1 false) :: h2 /\
    replay race4 0%nat h1 s1 /\
    next_state race4 s1 1%nat = Some s2 /\
    next_state race4 s2 2%nat = Some s3 /\
    current_player race4 s3 = Modified.winner_of 1 false.
Proof.
  destruct (rollout_writes_replies_of_the_playout nat nat _ _ race4
              first_draw _ _ _ _ _ _ _ _ _ race4_rollout)
    as (hist & s' & Hplay & _ & _ & _ & _ & Hentries).
  rewrite race4_playout in Hplay. injection Hplay as <-.
  destruct (Hentries 1%nat 2%nat (lookup_insert_eq _ _ _)) as [Hold|Hnew].
  - rewrite lookup_empty in Hold. discriminate.
  - exact Hnew.
Defined.

(** X9: in a game in which the turn passes with every move, the replies
    the enhanced rollout writes into its table are moves of the side it did
    not take for the winner: every entry [key -> value] it writes comes
    from neighbours [(key, _)], [(value, winner)] in the history of its
    own playout, and in the state that playout had reached after [key], in
    which [value] was played, the winner was not to move. *)
Theorem rollout_records_moves_of_the_other_side :
  forall (Action State : Type) (EqA : EqDecision Action) (CA : Countable Action)
         (board : Board Action State) (rnd : nat -> nat) fuel s id k t
         state' won k' t',
    (forall x a y, next_state board x a = Some y ->
       current_player board y ≠ current_player board x) ->
    Modified.rollout board rnd fuel (Some s) id k t
      = Ok (state', won, k', t') ->
    exists hist,
      Modified.playout board rnd fuel t (Some s) [] None k
        = Ok (state', hist, k') /\
      forall key value, t' !! key = Some value ->
        t !! key = Some value \/
        exists h1 m1 h2 s2 s3,
          hist = h1 ++ (key, m1) :: (value, Modified.winner_of id won) :: h2 /\
          replay board s (h1 ++ [(key, m1)]) s2 /\
          next_state board s2 value = Some s3 /\
          current_player board s2 ≠ Modified.winner_of id won.
Proof.
  intros Action State EqA CA board rnd fuel s id k t state' won k' t'
    Halt Hrun.
  destruct (rollout_parts board rnd _ _ _ _ _ _ _ _ _ Hrun)
    as (hist & s' & Hplay & _ & _ & _ & _ & Hentries).
  exists hist. split; [done|]. intros key value Hlk.
  destruct (Hentries key value Hlk)
    as [?|(h1 & m1 & h2 & s1 & s2 & s3 & ? & _ & ? & _ & Hnext & Hw)];
    [by left|].
  right. exists h1, m1, h2, s2, s3. repeat (split; [done|]).
  rewrite <- Hw. intros Heq. by apply (Halt _ _ _ Hnext).
Qed.

Lemma race4_alternates x a y :
  next_state race4 x a = Some y ->
  current_player race4 y ≠ current_player race4 x.
Proof.
  simpl. destruct (decide (x < 4)%nat); [|done]. intros [= <-].
  rewrite Nat.even_succ, <- Nat.negb_even. by destruct (Nat.even x).
Qed.

(** X9 (witness): the race to 4 lost by identity 1; the reply 2 that the
    rollout records was played by identity 1. *)
Lemma rollout_records_moves_of_the_other_side_witness :
  exists h1 m1 h2 s2 s3,
    [(0%nat, 2); (1%nat, 1); (2%nat, 2); (3%nat, 1)]
    = h1 ++ (1%nat, m1) :: (2%nat, Modified.winner_of 1 false) :: h2 /\
    replay race4 0%nat (h1 ++ [(1%nat, m1)]) s2 /\
    next_state race4 s2 2%nat = Some s3 /\
    current_player race4 s2 ≠ Modified.winner_of 1 false.
Proof.
  destruct (rollout_records_moves_of_the_other_side nat nat _ _ race4
              first_draw _ _ _ _ _ _ _ _ _ race4_alternates race4_rollout)
    as (hist & Hplay & Hentries).
  rewrite race4_playout in Hplay. injection Hplay as <-.
  destruct (Hentries 1%nat 2%nat (lookup_insert_eq _ _ _)) as [Hold|Hnew].
  - rewrite lookup_empty in Hold. discriminate.
  - exact Hnew.
Defined.

(** X12: [get_best_action] divides by the visits of every child it looks
    at: on children whose statistics are those of a tree
    ([0 <= wins <= visits], so that each quotient fits a float) it raises
    [ZeroDivisionError] when some child has no visits, wherever that child
    stands among the children. *)
Theorem get_best_action_unvisited_child :
  forall (Action : Type) (h : list (MCTSNode Action)) root n,
    h !! root = Some n ->
    (forall c, c ∈ (child_nodes n).*2 ->
       exists cn, h !! c = Some cn /\ 0 <= wins cn <= visits cn) ->
    (exists c cn, c ∈ (child_nodes n).*2 /\ h !! c = Some cn /\ visits cn = 0) ->
    get_best_action h root = Raise ZeroDivisionError /\
    (forall c cn, c ∈ (child_nodes n).*2 -> h !! c = Some cn ->
       Checked.win_rate h c = win_rate h c).
Proof.
  intros Action h root n Hn Hstats Hzero. split.
  - unfold get_best_action, deref. rewrite Hn. cbn [mbind result_bind].
    rewrite (best_pick_unvisited h _ _); [done| |done].
    intros c Hc. destruct (Hstats c Hc) as (cn & Hcn & _). by eexists.
  - intros c cn Hc Hcn. destruct (Hstats c Hc) as (cn0 & Hcn0 & Hw).
    assert (cn0 = cn) by congruence. subst cn0.
    unfold Checked.win_rate, win_rate, deref. rewrite Hcn.
    cbn [mbind result_bind]. unfold true_div.
    case_bool_decide; [done|]. rewrite bool_decide_false; [done|].
    assert (2 <= float_limit) by (by vm_compute).
    rewrite !Z.abs_eq by lia. nia.
Qed.

(** X12 (witness): the arena right after the first expansion of the
    one-move game, before any backpropagation. *)
Lemma get_best_action_unvisited_child_witness :
  get_best_action
    [ mkNode None None [(0%nat, 1%nat)] ([] : list nat) 0 0;
      mkNode (Some 0%nat) (Some 0%nat) [] [] 0 0 ] 0%nat
  = Raise ZeroDivisionError.
Proof.
  eapply (fun H1 H2 H3 => proj1 (get_best_action_unvisited_child nat _ 0%nat _
                                   H1 H2 H3)); [reflexivity| |].
  - intros c Hc. apply list_elem_of_singleton in Hc as ->.
    eexists. split; [reflexivity|]. simpl. lia.
  - exists 1%nat, (mkNode (Some 0%nat) (Some 0%nat) [] [] 0 0).
    split; [by apply list_elem_of_singleton|done].
Defined.

(** X19: in a search the conversion checks never fire: after any number
    of passes below [float_limit] (the budgets are 100 and 900), on every
    node that has visits [Checked.ucb] is [ucb] and [Checked.win_rate] is
    [win_rate]. *)
Theorem search_stays_within_the_float_range :
  forall (Action State : Type) (EqA : EqDecision Action) (CA : Countable Action)
         (board : Board Action State) (rnd : nat -> nat) simulate n fuel s0 k t w,
    search board rnd simulate n fuel s0 k t = Ok w ->
    Z.of_nat n < float_limit ->
    forall a nd is_opponent,
      nodes w !! a = Some nd -> 0 < visits nd ->
      Checked.ucb (nodes w) a is_opponent = ucb (nodes w) a is_opponent /\
      Checked.win_rate (nodes w) a = win_rate (nodes w) a.
Proof.
  intros Action State EqA CA board rnd simulate n fuel s0 k t w Hrun Hn
    a nd opp Hnd Hv.
  apply search_spec in Hrun as [Hwf Hroot]. unfold root_visits in Hroot.
  destruct (nodes w !! 0%nat) as [r|] eqn:Hr; [|discriminate].
  injection Hroot as Hroot.
  pose proof (wf_visits_le_root _ _ Hwf Hr a nd Hnd) as Hle.
  pose proof (wf_stats _ _ Hwf _ _ Hnd) as Hst.
  assert (2 <= float_limit) by (by vm_compute).
  assert (Hq : Z.abs (wins nd) < float_limit * visits nd)
    by (rewrite Z.abs_eq by lia; nia).
  split.
  - apply (checked_ucb_in_range _ _ nd); [done|lia|done].
  - apply (checked_win_rate_in_range _ _ nd); [done|].
    by rewrite (Z.abs_eq (visits nd)) by lia.
Qed.

(** X19 (witness): the child in the one-move game after three passes. *)
Lemma search_stays_within_the_float_range_witness :
  Checked.ucb (one_move_nodes 3) 1%nat false = ucb (one_move_nodes 3) 1%nat false
  /\ Checked.win_rate (one_move_nodes 3) 1%nat = win_rate (one_move_nodes 3) 1%nat.
Proof.
  exact (search_stays_within_the_float_range nat nat _ _ one_move first_draw _
           3%nat 2%nat 0%nat 0%nat ∅ _
           (one_move_search _ 2 0 ∅ (fun d => one_move_vanilla d ∅))
           ltac:(by vm_compute) 1%nat _ false eq_refl ltac:(simpl; lia)).
Defined.
